(** * Harbor: the unit contract, the environment gate and the run coordinator

    A shallow embedding of the orchestration code of Harbor
    (services/BaseService.js, index.js in its two revisions, the JsOptimizer
    plugin, the StyleguideHelper worker, common/Environment.js and the legacy
    bin/Harbor.js driver), followed by the properties the specification
    states about them.

    Conventions of the embedding:
    - a JavaScript value is a [Js.value]; [Js.truthy] is the language's
      ToBoolean;
    - a method that logs, subscribes or signals returns the list of
      observable events it produced, oldest first;
    - a promise is represented by the way it settles ([Async.settle]);
    - collaborators whose source is not part of the embedded files
      (glob, fs, uglify-js, the task manager's publish) are Section
      variables, so every statement holds for all of their behaviours. *)

From Stdlib Require Import ZArith Ascii String.
From stdpp Require Import gmap strings list pretty.

Local Open Scope string_scope.
Local Open Scope list_scope.

(** ** JavaScript values *)

Module Js.

Inductive value :=
| Undefined
| Null
| Bool (b : bool)
| Num (n : Z)
| Str (s : string)
| Arr (items : list string)
| Obj.

#[global] Instance value_eq_dec : EqDecision value.
Proof. solve_decision. Defined.

(** ToBoolean. Numbers are integers here, NaN is never stored in a value. *)
Definition truthy (v : value) : bool :=
  match v with
  | Undefined | Null => false
  | Bool b => b
  | Num n => negb (n =? 0)%Z
  | Str s => negb (String.eqb s "")
  | Arr _ | Obj => true
  end.

(** [v === s] for a string [s]. *)
Definition strict_eq_str (v : value) (s : string) : bool :=
  match v with
  | Str t => String.eqb t s
  | _ => false
  end.

(** [a === b]. Two arrays or objects are equal only when they are the
    same object; the values compared here are never aliases of each
    other, so the comparison of two objects is false. *)
Definition strict_eq (a b : value) : bool :=
  match a, b with
  | Undefined, Undefined => true
  | Null, Null => true
  | Bool x, Bool y => Bool.eqb x y
  | Num x, Num y => (x =? y)%Z
  | Str x, Str y => String.eqb x y
  | _, _ => false
  end.

(** [list.includes(v)]. *)
Definition includes_value (l : list value) (v : value) : bool :=
  existsb (strict_eq v) l.

(** [list.includes(s)] where the list may hold any value. *)
Definition includes_str (l : list value) (s : string) : bool :=
  existsb (fun v => strict_eq_str v s) l.

(** [Array.prototype.join]. *)
Definition join (sep : string) (l : list string) : string :=
  String.concat sep l.

(** The text [join] and template literals use for an element. *)
Definition to_string (v : value) : string :=
  match v with
  | Undefined => "undefined"
  | Null => "null"
  | Bool true => "true"
  | Bool false => "false"
  | Num n => pretty n
  | Str s => s
  | Arr l => join "," l
  | Obj => "[object Object]"
  end.

(** [join] over values: [undefined] and [null] elements print as the
    empty string. *)
Definition join_values (sep : string) (l : list value) : string :=
  join sep (List.map (fun v => match v with
                               | Undefined | Null => EmptyString
                               | _ => to_string v
                               end) l).

(** [s.split('::')[0]]: the part of [s] before the first "::". *)
Fixpoint before_sep (s : string) : string :=
  match s with
  | EmptyString => EmptyString
  | String c rest =>
      if String.prefix "::" s then EmptyString else String c (before_sep rest)
  end.

End Js.

(** ** Observable events *)

Inductive level := Log | Info | Warning | Error | Success.

(** The two closures [BaseService.subscribe] can hand to the task manager. *)
Inductive handler :=
| HInit   (* this.init.bind(this) *)
| HStub.  (* the arrow function that warns and resolves *)

Inductive category := Workers | Plugins.

Inductive event :=
| Console (l : level) (msg : string)
| TMSubscribe (name : string) (hook : list Js.value) (h : handler)
| TMResolve (name : string) (exit : Js.value)
| InitCalled (name : string)
| TaskCalled (name : string)
| Mount (c : category)
| PublishWorkers (tasks : list Js.value)
| PublishPlugins (request : string) (tasks : option (list Js.value)).

(** How a call ends: it returns, or it throws (for an async function:
    the promise it returned is fulfilled or rejected). *)
Inductive outcome :=
| Returned
| Thrown (msg : string).

(** What a publish cycle hands back to the coordinator. A property that
    is missing from the object is [None]. *)
Record PublishResult := {
  completed : option (list string);
  exceptions : option (list string)
}.

#[global] Instance level_eq_dec : EqDecision level.
Proof. solve_decision. Defined.
#[global] Instance handler_eq_dec : EqDecision handler.
Proof. solve_decision. Defined.
#[global] Instance category_eq_dec : EqDecision category.
Proof. solve_decision. Defined.
#[global] Instance event_eq_dec : EqDecision event.
Proof. solve_decision. Defined.

(** The completion signals among a list of events. *)
Definition is_signal (e : event) : bool :=
  match e with TMResolve _ _ => true | _ => false end.

Definition signals (es : list event) : list event := List.filter is_signal es.

(** ** services/BaseService.js *)

Module BaseService.

(** [this.tooling]: whether it holds a TaskManager, and whether that one
    has a [resolve] method. *)
Record tooling := {
  has_TaskManager : bool;
  has_TaskManager_resolve : bool
}.

(** [this.config]: [hook] as configured, [entry] as the list of the
    object's own keys with their patterns ([None] when falsy). *)
Record config := {
  hook : Js.value;
  entry_patterns : option (list (string * string))
}.

(** [this.options] after [defineOptions]; [None] is [undefined]. *)
Record options := {
  acceptedEnvironments : option (list Js.value)
}.

Record environment := {
  THEME_ENVIRONMENT : Js.value;
  THEME_SRC : string;
  THEME_DIST : string
}.

Record service := {
  name : string;
  env : environment;
  cfg : config;
  tools : tooling;
  opts : option options;
  entry : option (list (list string))
}.

(** The [options] argument of the constructor: its
    [acceptedEnvironments] property, if an options object is given. *)
Definition raw_options := option Js.value.

Definition defineAcceptedEnvironments (o : raw_options) : option (list Js.value) :=
  match o with
  | None => None
  | Some ae =>
      if negb (Js.truthy ae) then None
      else match ae with
           | Js.Arr l => Some (List.map Js.Str l)
           | _ => Some [ae]
           end
  end.

(** [Object.assign] copies the (possibly undefined) result over the
    default empty list. *)
Definition defineOptions (o : raw_options) : options :=
  {| acceptedEnvironments := defineAcceptedEnvironments o |}.

Definition initIfAccepted (s : service) : bool :=
  match opts s with
  | None => true
  | Some o =>
      match acceptedEnvironments o with
      | None => true
      | Some [] => true
      | Some l => if Js.includes_value l (THEME_ENVIRONMENT (env s)) then true else false
      end
  end.

Definition resolve (s : service) (exit : Js.value) : list event :=
  if has_TaskManager (tools s) && has_TaskManager_resolve (tools s)
  then [Console Log ("Resolving service: " +:+ name s); TMResolve (name s) exit]
  else [Console Warning ("Unable to resolve " +:+ name s +:+ ", unable to find the Task Manager.")].

Definition reject (s : service) : list event := resolve s (Js.Bool true).

(** The hook list the constructor computes before it subscribes. *)
Definition constructor_hook (s : service) : list Js.value :=
  if Js.truthy (hook (cfg s)) && negb (Js.strict_eq_str (hook (cfg s)) (name s))
  then [Js.Str (name s); hook (cfg s)]
  else [Js.Str (name s)].

Definition subscribe (s : service) (hk : list Js.value) : list event :=
  if has_TaskManager (tools s)
  then [TMSubscribe (name s) hk (if initIfAccepted s then HInit else HStub)]
  else [].

(** The body of the stub closure. It reads [this.options] again for its
    message only. *)
Definition stub (s : service) : list event :=
  let accepted :=
    match opts s with
    | Some o => default [] (acceptedEnvironments o)
    | None => []
    end in
  Console Warning
    (name s +:+ " will not be launched since it is only accepted for the "
       +:+ Js.join_values ", " accepted +:+ " environments.")
  :: resolve s Js.Undefined.

Section Entry.

(** [path.join], [glob.sync] and the size [fs.statSync] reports. *)
Variable join : string -> string -> string.
Variable sync : string -> list string.
Variable stat_size : string -> Z.

(** The callback of the inner [filter]: it logs empty files and keeps
    [e] when [statSync(e).size > 0 ? e : null] is truthy. *)
Definition keep_entry (e : string) : bool :=
  if (0 <? stat_size e)%Z then Js.truthy (Js.Str e) else false.

Definition skip_log (e : string) : list event :=
  if (stat_size e =? 0)%Z then [Console Log ("Skipping empty entry: " +:+ e)] else [].

Definition resolve_pattern (s : service) (useDestination : bool) (pattern : string)
  : list string :=
  sync (join (if useDestination then THEME_DIST (env s) else THEME_SRC (env s)) pattern).

Definition with_entry (s : service) (e : option (list (list string))) : service :=
  {| name := name s; env := env s; cfg := cfg s; tools := tools s;
     opts := opts s; entry := e |}.

(** [!this.config.entry instanceof Object] parses as
    [(!this.config.entry) instanceof Object], which is false for the
    boolean on its left: only the first test of the guard can fire. *)
Definition defineEntry (s : service) (useDestination : bool) : list event * service :=
  match entry_patterns (cfg s) with
  | None => ([], s)
  | Some [] => ([], s)
  | Some entries =>
      let matched := List.map (fun ne => resolve_pattern s useDestination (snd ne)) entries in
      (List.flat_map (List.flat_map skip_log) matched,
       with_entry s
         (Some (List.filter (fun g => negb (Nat.eqb (List.length g) 0))
                  (List.map (List.filter keep_entry) matched))))
  end.

End Entry.

(** The constructor, up to its call of [subscribe]. [Object.keys(tooling)]
    in the log line is abstracted by the caller-supplied [tool_names]. *)
Definition construct (nm : string) (e : environment) (c : config)
    (t : option (tooling * list string)) (o : raw_options) : list event * service :=
  let s0 := {| name := nm; env := e; cfg := c;
               tools := {| has_TaskManager := false; has_TaskManager_resolve := false |};
               opts := Some (defineOptions o); entry := None |} in
  let hk := constructor_hook s0 in
  match t with
  | Some (tl, tool_names) =>
      let s1 := {| name := nm; env := e; cfg := c; tools := tl;
                   opts := Some (defineOptions o); entry := None |} in
      (Console Log ("Assigning tool: " +:+ Js.join ", " tool_names +:+ " from service: "
                      +:+ nm +:+ " as " +:+ Js.join_values ", " hk)
         :: subscribe s1 hk, s1)
  | None => (subscribe s0 hk, s0)
  end.

(** Running a subscribed handler of a unit whose [init] is [run_init]. *)
Definition run_handler (h : handler) (s : service) (run_init : service -> list event)
  : list event :=
  match h with
  | HInit => InitCalled (name s) :: run_init s
  | HStub => stub s
  end.

End BaseService.

(** ** The task manager *)

(* services/TaskManager.js is not among the embedded sources; what the
   properties need of it follows sections 4.1 and 4.2 of the
   specification. *)

Module TaskManager.

(** Modelled from the spec: a Subscription of the registry (section 3),
    which services/TaskManager.js, missing from the sources, keeps:
    the unit's name, the hooks it responds to and its handler. *)
Record Subscription := {
  sub_name : string;
  sub_hooks : list Js.value;
  sub_handler : handler
}.

(** Modelled from the spec: whether a name is already registered in
    the category (section 4.1, [register]); the registry of the missing
    TaskManager.js is kept in registration order. *)
Definition registered (r : list Subscription) (n : string) : bool :=
  existsb (fun s => String.eqb (sub_name s) n) r.

(** Modelled from the spec: [register] of the missing TaskManager.js
    (section 4.1) adds a Subscription and fails with DuplicateNameError,
    here [None], if the name is already registered. *)
Definition register (r : list Subscription) (s : Subscription)
  : option (list Subscription) :=
  if registered r (sub_name s) then None else Some (r ++ [s]).

(** Modelled from the spec: the Subscriptions that the registry of the
    missing TaskManager.js holds under hook name [h], those whose hooks
    include [h] (section 3, Hook Registry). *)
Definition under_hook (r : list Subscription) (h : string) : list Subscription :=
  List.filter (fun s => Js.includes_str (sub_hooks s) h) r.

(** Modelled from the spec: the registry of the missing TaskManager.js
    after the [TaskManager.subscribe] calls of an event list, each one
    a [register] (section 4.1). *)
Fixpoint replay (es : list event) (r : list Subscription) : option (list Subscription) :=
  match es with
  | [] => Some r
  | TMSubscribe n hk h :: rest =>
      match register r {| sub_name := n; sub_hooks := hk; sub_handler := h |} with
      | Some r' => replay rest r'
      | None => None
      end
  | _ :: rest => replay rest r
  end.

(** Modelled from the spec: a unit signalled success, [resolve(failed)]
    with a falsy flag (section 4.2, step 2); the receiving
    [TaskManager.resolve] is missing from the sources. *)
Definition succeeded (e : event) : option string :=
  match e with
  | TMResolve n exit => if Js.truthy exit then None else Some n
  | _ => None
  end.

(** Modelled from the spec: a unit signalled failure, [resolve(true)]
    (section 4.2, step 2); the receiving [TaskManager.resolve] is
    missing from the sources. *)
Definition failed (e : event) : option string :=
  match e with
  | TMResolve n exit => if Js.truthy exit then Some n else None
  | _ => None
  end.

(** Modelled from the spec: the result the missing TaskManager.js
    builds for a cycle whose units produced the events [es]:
    [completed] from the units that signalled success, [exceptions] from
    those that signalled failure (section 4.2, step 4). *)
Definition aggregate (es : list event) : PublishResult :=
  {| completed := Some (omap succeeded es);
     exceptions := Some (omap failed es) |}.

End TaskManager.

(** ** index.js: the run coordinator *)

(** The parts of [init] and [mount] that the two revisions of index.js
    share word for word. *)
Module Coordinator.

(** [x && x.length] *)
Definition nonempty (o : option (list string)) : bool :=
  match o with
  | Some (_ :: _) => true
  | _ => false
  end.

(** [x && !x.length] *)
Definition defined_empty (o : option (list string)) : bool :=
  match o with
  | Some [] => true
  | _ => false
  end.

Definition listed (o : option (list string)) : string :=
  Js.join ", " (default [] o).

(** [[task].filter((t) => t)] *)
Definition initial_tasks (task : Js.value) : list Js.value :=
  if Js.truthy task then [task] else [].

(** The loop over [workerHooks()] that fills an empty task list.
    [customArgs] is [Object.keys(customArgs)], or [None] when Argv
    supplies no such object: the callback then throws a TypeError on the
    first hook it sees. *)
Definition tasks_from_hooks (customArgs : option (list string))
    (workerHooks : list string) : option (list Js.value) :=
  match customArgs with
  | Some keys =>
      Some (List.map (fun h => Js.Str (Js.before_sep h))
              (List.filter (fun h => existsb (String.eqb (Js.before_sep h)) keys)
                 workerHooks))
  | None =>
      match workerHooks with
      | [] => Some []
      | _ :: _ => None
      end
  end.

Definition define_tasks (task : Js.value) (customArgs : option (list string))
    (workerHooks : list string) : option (list Js.value) :=
  match initial_tasks task with
  | [] => tasks_from_hooks customArgs workerHooks
  | ts => Some ts
  end.

(** [hook ? (Array.isArray(hook) ? hook : [String(hook)]) : []] *)
Definition hook_list (hook : Js.value) : list string :=
  if Js.truthy hook
  then match hook with
       | Js.Arr l => l
       | v => [Js.to_string v]
       end
  else [].

(** The inner filter over [Object.values(config.plugins)] has a
    non-zero length. *)
Definition plugin_matches (plugin_hooks : list Js.value) (arg : string) : bool :=
  negb (Nat.eqb
          (List.length
             (List.filter
                (fun hook => existsb (String.eqb (Js.before_sep arg)) (hook_list hook))
                plugin_hooks))
          0).

(** [Object.keys(args).filter(...)]: [args] lists the own properties of
    the rest object in key order. *)
Definition requested_plugins (args : list (string * Js.value))
    (plugin_hooks : list Js.value) : list string :=
  List.map fst
    (List.filter (fun kv => Js.truthy (snd kv) && plugin_matches plugin_hooks (fst kv))
       args).

(** The hook list [mount] passes to [handler.subscribe]. *)
Definition mount_hook (name : string) (hook : Js.value) : list Js.value :=
  let h := match hook with
           | Js.Arr l => List.map Js.Str l
           | _ => [hook]
           end in
  if Js.truthy hook && negb (Js.strict_eq_str hook name) then Js.Str name :: h else h.

(** [mount]: the [subscribe] calls it makes, in order. [config] maps a
    unit name to its configured [hook] ([Js.Undefined] when the unit's
    configuration has none); a unit without configuration makes the
    destructuring throw, which ends the loop. *)
Fixpoint mount (instances : list string) (config : gmap string Js.value)
  : list (string * list Js.value) * outcome :=
  match instances with
  | [] => ([], Returned)
  | name :: rest =>
      match config !! name with
      | None => ([], Thrown "TypeError")
      | Some hook =>
          let '(calls, o) := mount rest config in
          ((name, mount_hook name hook) :: calls, o)
      end
  end.

End Coordinator.

(** The command line as [Argv.args] presents it. *)
Record argv := {
  task : Js.value;
  (** the rest object [args]: every own property but [task] *)
  args : list (string * Js.value);
  (** [Object.keys(args.customArgs)], if there is such an object *)
  customArgs : option (list string)
}.

(** Harbor/index.js *)
Module Harbor.
Import Coordinator.

Section Run.

(** [this.env.THEME_ENVIRONMENT] *)
Variable THEME_ENVIRONMENT : Js.value.
(** [TaskManager.publish('workers', tasks)],
    [TaskManager.publish('plugins', request)] and
    [TaskManager.workerHooks()] *)
Variable publish_workers : list Js.value -> PublishResult.
Variable publish_plugins : string -> PublishResult.
Variable workerHooks : list string.
(** the [hook] of every entry of [config.plugins], in [Object.values] order *)
Variable plugin_hooks : list Js.value.

Definition validateResult (results : PublishResult) (type : Js.value)
  : list event * outcome :=
  if nonempty (exceptions results)
     && negb (Js.strict_eq_str THEME_ENVIRONMENT "development")
  then
    let msg := "Not all " +:+ Js.to_string type
                 +:+ " have been completed correctly: " +:+ listed (exceptions results) in
    ([Console Error msg], Thrown msg)
  else
    (if nonempty (completed results)
     then (if defined_empty (exceptions results)
           then [Console Success ("Successfully completed: " +:+ listed (completed results))]
           else [])
     else if nonempty (exceptions results)
          then [Console Warning ("The following " +:+ Js.to_string type
                                   +:+ " did not complete correctly: "
                                   +:+ listed (exceptions results))]
          else [],
     Returned).

(** The first half of the [try] block. *)
Definition workers_cycle (tasks : list Js.value) : list event * outcome :=
  match tasks with
  | _ :: _ =>
      let workerResult := publish_workers tasks in
      let '(log, o) := validateResult workerResult Js.Undefined in
      (PublishWorkers tasks :: log, o)
  | [] => ([Console Warning "Harbor has not processed anything this time."], Returned)
  end.

(** The second half of the [try] block; the rest object [args] is
    always truthy. *)
Definition plugins_cycle (a : argv) : list event * outcome :=
  let plugins := requested_plugins (args a) plugin_hooks in
  match plugins with
  | _ :: _ =>
      let pluginResult := publish_plugins (Js.join "," plugins) in
      let '(log, o) := validateResult pluginResult Js.Undefined in
      ([Mount Plugins;
        Console Log ("Using " +:+ pretty (List.length plugins) +:+ " "
                       +:+ (if Nat.eqb (List.length plugins) 1 then "plugin" else "plugins")
                       +:+ " for " +:+ Js.to_string THEME_ENVIRONMENT +:+ "...");
        PublishPlugins (Js.join "," plugins) None] ++ log, o)
  | [] => ([], Returned)
  end.

(** The [catch] clause: an Error object is truthy, so it is always
    wrapped and thrown again. *)
Definition rethrow (o : outcome) : outcome :=
  match o with
  | Returned => Returned
  | Thrown msg =>
      Thrown ("Harbor encounterd an error and could not continue: Error: " +:+ msg)
  end.

Definition init (a : argv) : list event * outcome :=
  match define_tasks (task a) (customArgs a) workerHooks with
  | None => ([Mount Workers], Thrown "TypeError")
  | Some tasks =>
      let '(log1, o1) := workers_cycle tasks in
      match o1 with
      | Thrown _ => (Mount Workers :: log1, rethrow o1)
      | Returned =>
          let '(log2, o2) := plugins_cycle a in
          (Mount Workers :: log1 ++ log2, rethrow o2)
      end
  end.

End Run.

End Harbor.

(** The other revision of index.js, where [mount] is static and the task
    manager has [publishWorkers] and [publishPlugins]. *)
Module HarborStatic.
Import Coordinator.

Section Run.

Variable THEME_ENVIRONMENT : Js.value.
Variable publishWorkers : list Js.value -> PublishResult.
Variable publishPlugins : string -> list Js.value -> PublishResult.
Variable workerHooks : list string.
Variable plugin_hooks : list Js.value.
(** [Environment.hasBuild(this.env)] *)
Variable hasBuild : bool.

Definition validateResult (results : PublishResult) : list event * outcome :=
  if nonempty (exceptions results)
     && negb (Js.strict_eq_str THEME_ENVIRONMENT "development")
  then
    ([], Thrown ("Not all tasks have been completed correctly: "
                   +:+ listed (exceptions results)))
  else
    (if nonempty (completed results)
     then (if defined_empty (exceptions results)
           then [Console Success ("Successfully completed: " +:+ listed (completed results))]
           else [])
     else if nonempty (exceptions results)
          then [Console Warning ("The following task did not complete correctly: "
                                   +:+ listed (exceptions results))]
          else [],
     Returned).

Definition workers_cycle (tasks : list Js.value) : list event * outcome :=
  match tasks with
  | _ :: _ =>
      let workerResult := publishWorkers tasks in
      let '(log, o) := validateResult workerResult in
      (PublishWorkers tasks :: log, o)
  | [] =>
      (if negb hasBuild then [Console Warning "The defined build folder is empty!"] else [],
       Returned)
  end.

Definition plugins_cycle (a : argv) (tasks : list Js.value) : list event * outcome :=
  let plugins := requested_plugins (args a) plugin_hooks in
  match plugins with
  | _ :: _ =>
      let pluginResult := publishPlugins (Js.join "," plugins) tasks in
      let '(log, o) := validateResult pluginResult in
      ([Mount Plugins;
        Console Log ("Using " +:+ pretty (List.length plugins) +:+ " "
                       +:+ (if Nat.eqb (List.length plugins) 1 then "plugin" else "plugins")
                       +:+ " for " +:+ Js.to_string THEME_ENVIRONMENT +:+ "...");
        PublishPlugins (Js.join "," plugins) (Some tasks)] ++ log, o)
  | [] => ([], Returned)
  end.

(** The [catch] clause logs, then throws a fresh Error with the text of
    the caught one. *)
Definition rethrow (o : outcome) : list event * outcome :=
  match o with
  | Returned => ([], Returned)
  | Thrown msg =>
      ([Console Error "Harbor stopped because of an error:"], Thrown ("Error: " +:+ msg))
  end.

Definition init (a : argv) : list event * outcome :=
  match define_tasks (task a) (customArgs a) workerHooks with
  | None => ([Mount Workers], Thrown "TypeError")
  | Some tasks =>
      let '(log1, o1) := workers_cycle tasks in
      match o1 with
      | Thrown _ => (Mount Workers :: log1 ++ fst (rethrow o1), snd (rethrow o1))
      | Returned =>
          let '(log2, o2) := plugins_cycle a tasks in
          (Mount Workers :: log1 ++ log2 ++ fst (rethrow o2), snd (rethrow o2))
      end
  end.

End Run.

End HarborStatic.

(** ** Promises, by the way they settle *)

Module Async.

Inductive settle :=
| Fulfilled
| Rejected (reason : string)
| Pending.

Definition is_rejected (s : settle) : bool :=
  match s with Rejected _ => true | _ => false end.

Definition is_pending (s : settle) : bool :=
  match s with Pending => true | _ => false end.

(** [Promise.all]: rejected once a member is, fulfilled once all are,
    pending for ever otherwise. *)
Definition all (l : list settle) : settle :=
  match List.find is_rejected l with
  | Some r => r
  | None => if existsb is_pending l then Pending else Fulfilled
  end.

(** How a callback that owns a promise's [done] ends: it called it, it
    returned without calling it, or it threw outside any promise (an
    uncaught exception, which ends the process). *)
Inductive callback_end :=
| Done
| NotDone
| Uncaught (msg : string).

Definition is_uncaught (e : callback_end) : bool :=
  match e with Uncaught _ => true | _ => false end.

Definition is_done (e : callback_end) : bool :=
  match e with Done => true | _ => false end.

(** Runs the callbacks of [l] one after the other; nothing runs after an
    uncaught exception. *)
Fixpoint in_order {A : Type} (f : A -> list event * callback_end) (l : list A)
  : list event * list callback_end :=
  match l with
  | [] => ([], [])
  | x :: rest =>
      let '(log, e) := f x in
      if is_uncaught e then (log, [e])
      else let '(log', es) := in_order f rest in (log ++ log', e :: es)
  end.

(** The end of a [Promise.all] over callbacks that ended as [es]. *)
Definition all_done (es : list callback_end) : callback_end :=
  match List.find is_uncaught es with
  | Some u => u
  | None => if forallb is_done es then Done else NotDone
  end.

End Async.

(** ** plugins/JsOptimizer.js *)

Module JsOptimizer.
Import Async.

(** What [fs.readFile] passes to its callback. *)
Inductive read_result :=
| ReadError (exception : string)
| ReadData (data : string).

(** The object uglify-js returns. *)
Record minified := {
  code : option string;
  error : option string
}.

Section Unit.

(** [this]; [super.resolve] and [super.reject] are the base class's. *)
Variable self : BaseService.service.
Variable readFile : string -> read_result.
Variable minify : string -> minified.

(** [write]: the events, and whether a promise came back (it then
    always fulfils: the callback of [fs.writeFile] ignores its error). *)
Definition write (path : string) (blob : Js.value) : list event * bool :=
  if negb (Js.truthy (Js.Str path))
  then (Console Error "Unable to optimize script, no path has been defined."
          :: BaseService.reject self, false)
  else if negb (Js.truthy blob)
  then (Console Error ("Unable to optimize script, no data has been defined for "
                         +:+ path +:+ ".")
          :: BaseService.reject self, false)
  else ([Console Log ("File optimized: " +:+ path)], true).

(** The callback [optimizeCwd] gives to [fs.readFile] for one path.
    When [write] returns no promise, [.then] is read from [undefined]. *)
Definition on_read (path : string) : list event * callback_end :=
  match readFile path with
  | ReadError exception =>
      (Console Error exception :: BaseService.resolve self Js.Undefined, NotDone)
  | ReadData data =>
      let result := minify data in
      let log :=
        match error result with
        | Some e =>
            [Console Error ("Minify exception encountered for " +:+ path +:+ ": " +:+ e);
             Console Info ("The original state for " +:+ path +:+ " will be used instead.")]
        | None => []
        end in
      let blob :=
        match error result with
        | Some _ => Js.Str data
        | None => from_option Js.Str Js.Undefined (code result)
        end in
      let '(wlog, promised) := write path blob in
      (log ++ wlog, if promised then Done else Uncaught "TypeError")
  end.

(** The read callbacks of one entry group. The order in which the file
    system answers is taken to be the order of the requests; how many
    signals are sent does not depend on it unless a callback throws. *)
Definition optimizeCwd (cwd : list string) : list event * callback_end :=
  let '(log, es) := in_order on_read cwd in (log, all_done es).

Definition init : list event * callback_end :=
  match BaseService.entry self with
  | None | Some [] => (BaseService.resolve self Js.Undefined, Done)
  | Some groups =>
      let started :=
        List.map (fun path => Console Log ("Optimizing: " +:+ path)) (List.concat groups) in
      let '(log, es) := in_order optimizeCwd groups in
      match all_done es with
      | Done => (started ++ log ++ BaseService.resolve self Js.Undefined, Done)
      | other => (started ++ log, other)
      end
  end.

End Unit.

End JsOptimizer.

(** ** workers/StyleguideHelper.js *)

Module StyleguideHelper.
Import Async.

(** The properties of [this.config.options] that steer
    [setupInitialStories]. *)
Record options := {
  destinationDirectory : string;
  ignoreInitial : bool
}.

(** [fs.writeFile]: it throws at once, or calls back with or without
    an error. *)
Inductive write_result :=
| WriteThrows (exception : string)
| WriteError (exception : string)
| WriteOk.

Section Unit.

Variable self : BaseService.service.
(** [this.config.options]; [None] when the configuration has none *)
Variable config_options : option options.
Variable existsSync : string -> bool.
Variable writeFile : string -> write_result.
(** [path.resolve(this.environment.THEME_SRC, dir)] *)
Variable resolve_directory : string -> string.
(** the story file of a source, below the resolved destination directory
    (the empty string when there is none) *)
Variable story_destination : string -> string -> string.

(** The executor of one promise of the write queue. *)
Definition write_story (destination : string) : list event * settle :=
  match writeFile destination with
  | WriteThrows exception => ([Console Warning exception], Pending)
  | WriteError exception =>
      ([Console Warning exception;
        Console Log ("Styleguide entry template created: " +:+ destination)], Fulfilled)
  | WriteOk =>
      ([Console Log ("Styleguide entry template created: " +:+ destination)], Fulfilled)
  end.

(** [setupInitialStories]. The text of the template plays no part in
    signalling and [defineInitialTemplate] is taken to return. With no
    [this.config.options], reading [extname] from it throws inside the
    executor, which rejects the promise. *)
Definition setupInitialStories (entry : list string) : list event * settle :=
  match entry with
  | [] => ([], Fulfilled)
  | _ :: _ =>
      match config_options with
      | None => ([], Rejected "TypeError")
      | Some o =>
          let dir :=
            if Js.truthy (Js.Str (destinationDirectory o))
            then resolve_directory (destinationDirectory o) else "" in
          let made :=
            if Js.truthy (Js.Str (destinationDirectory o))
            then [Console Info ("Destination directory created: " +:+ dir)] else [] in
          let destinations := List.map (story_destination dir) entry in
          let existing d := negb (ignoreInitial o) && existsSync d in
          let skipped :=
            List.map (fun d => Console Log ("Skipping existing styleguide story: " +:+ d))
              (List.filter existing destinations) in
          let queue := List.filter (fun d => negb (existing d)) destinations in
          let writes := List.map write_story queue in
          let created :=
            Console Info ("Created " +:+ pretty (List.length queue)
                            +:+ " initial styleguide entries: " +:+ dir) in
          match all (List.map snd writes) with
          | Fulfilled =>
              (made ++ skipped ++ List.flat_map fst writes ++ [created], Fulfilled)
          | Rejected exception =>
              (made ++ skipped ++ List.flat_map fst writes
                 ++ Console Error exception :: BaseService.reject self ++ [created],
               Fulfilled)
          | Pending => (made ++ skipped ++ List.flat_map fst writes, Pending)
          end
      end
  end.

(** [init]. Reading the option of the StyleguideCompiler alias has no
    effect on signalling and is left out. [this.entry.map] throws when
    [this.entry] is undefined. The events of a group are listed
    together. *)
Definition init : list event * settle :=
  match BaseService.entry self with
  | None => ([], Rejected "TypeError")
  | Some groups =>
      let stories := List.map setupInitialStories groups in
      match all (List.map snd stories) with
      | Fulfilled =>
          (List.flat_map fst stories ++ BaseService.resolve self Js.Undefined, Fulfilled)
      | other => (List.flat_map fst stories, other)
      end
  end.

End Unit.


(** The properties of [this.config.options] that [useTitle] reads;
    [sep] is the empty string when it is not set. *)
Record title_options := {
  structuredTitle : bool;
  sep : string
}.

Section Titles.

(** The pascal-cased base name of a source, and the pascal-cased
    directories below THEME_SRC that lead to it: both are computed with
    [camelcase] and [path] only. *)
Variable module_name : string -> string.
Variable title_dirs : string -> list string.
(** [this.config.options] *)
Variable title_config : option title_options.

(** The title of a source before it is compared with the titles that
    were handed out already. *)
Definition base_title (source : string) : string :=
  match title_config with
  | Some o =>
      if negb (Nat.eqb (List.length (title_dirs source)) 0) && structuredTitle o
      then let separator := if Js.truthy (Js.Str (sep o)) then sep o else " / " in
           Js.join separator (title_dirs source) +:+ separator +:+ module_name source
      else module_name source
  | None => module_name source
  end.

(** [useTitle], with [this.titles] passed in and out. *)
Definition useTitle (titles : gmap string nat) (source : string)
  : gmap string nat * string * list event :=
  let result := base_title source in
  match titles !! result with
  | None => (<[result := 1%nat]> titles, result, [])
  | Some n =>
      let suffixed := result +:+ "__" +:+ pretty (n + 1)%nat in
      (<[result := (n + 1)%nat]> titles, suffixed,
       [Console Warning ("Duplicate title encoutered for " +:+ source
                           +:+ " a suffix will be added: " +:+ suffixed)])
  end.

(** The titles of a run of [useTitle] over [sources], one after the
    other, as [defineInitialTemplate] asks for them. *)
Fixpoint useTitles (titles : gmap string nat) (sources : list string)
  : gmap string nat * list string :=
  match sources with
  | [] => (titles, [])
  | source :: rest =>
      let '(titles1, title, _) := useTitle titles source in
      let '(titles2, more) := useTitles titles1 rest in
      (titles2, title :: more)
  end.

End Titles.

(** [list.indexOf(v)] *)
Fixpoint indexOf (l : list string) (v : string) : option nat :=
  match l with
  | [] => None
  | x :: rest => if String.eqb x v then Some 0%nat else S <$> indexOf rest v
  end.

(** [map.filter((v, i) => map.indexOf(v) === i)] *)
Definition first_occurrences (l : list string) : list string :=
  List.map snd
    (List.filter (fun iv => bool_decide (indexOf l iv.2 = Some iv.1)) (imap pair l)).

(** [v.split(' ').join('')] *)
Fixpoint without_spaces (s : string) : string :=
  match s with
  | EmptyString => EmptyString
  | String c rest =>
      if (nat_of_ascii c =? 32)%nat then without_spaces rest
      else String c (without_spaces rest)
  end.

(** The [map] that [loadVariants] stores for a variant, from the texts
    that [data.matchAll(query)] matched. *)
Definition variant_map (matched : list string) : list string :=
  List.map without_spaces (first_occurrences matched).

End StyleguideHelper.

(** ** common/Environment.js *)

Module Environment.

Definition defaults : list (string * Js.value) :=
  [("THEME_PORT", Js.Num 8080);
   ("THEME_DEBUG", Js.Bool false);
   ("THEME_ENVIRONMENT", Js.Str "production");
   ("THEME_STATIC_DIRECTORY", Js.Str "");
   ("THEME_TEST_PHASE", Js.Str "test");
   ("THEME_WEBSOCKET_PORT", Js.Num 35729);
   ("THEME_AS_CLI", Js.Bool false)].

Definition is_space (c : ascii) : bool :=
  let n := nat_of_ascii c in
  (n =? 32)%nat || ((9 <=? n)%nat && (n <=? 13)%nat).

Fixpoint trim_left (s : string) : string :=
  match s with
  | String c rest => if is_space c then trim_left rest else s
  | EmptyString => s
  end.

Definition digit (c : ascii) : option Z :=
  let n := nat_of_ascii c in
  if (48 <=? n)%nat && (n <=? 57)%nat then Some (Z.of_nat n - 48)%Z else None.

(** The longest run of decimal digits at the head of [s]; [acc] is the
    number read so far, [None] before the first digit. *)
Fixpoint digits (s : string) (acc : option Z) : option Z :=
  match s with
  | String c rest =>
      match digit c with
      | Some d => digits rest (Some (10 * default 0%Z acc + d)%Z)
      | None => acc
      end
  | EmptyString => acc
  end.

(** [parseInt(v, 10)]; [None] is NaN. *)
Definition parseInt (v : Js.value) : option Z :=
  match trim_left (Js.to_string v) with
  | String "-" rest => Z.opp <$> digits rest None
  | String "+" rest => digits rest None
  | s => digits s None
  end.

Definition lower (c : ascii) : ascii :=
  let n := nat_of_ascii c in
  if (65 <=? n)%nat && (n <=? 90)%nat then ascii_of_nat (n + 32) else c.

(** [toLowerCase], on the ASCII letters: no other character lowers to
    one of the letters of the four words it is compared with here. *)
Fixpoint toLowerCase (s : string) : string :=
  match s with
  | String c rest => String (lower c) (toLowerCase rest)
  | EmptyString => EmptyString
  end.

(** [typeof v === 'string' && words.includes(v.toLowerCase())] *)
Definition is_word (words : list string) (v : option Js.value) : bool :=
  match v with
  | Some (Js.Str s) => existsb (String.eqb (toLowerCase s)) words
  | _ => false
  end.

(** The value a missing option inherits. *)
Definition inherited (d : Js.value) : Js.value :=
  match parseInt d with
  | Some n => if (n =? 0)%Z then d else Js.Num n
  | None => d
  end.

Section Define.

(** What a property of the object behind [parsed] holds once a value
    has been assigned to it. *)
Variable kept : Js.value -> Js.value.

(** One turn of the loop over the keys of [this.defaults]. *)
Definition define_option (parsed : gmap string Js.value) (o : string * Js.value)
  : gmap string Js.value :=
  let p1 := match parsed !! o.1 with
            | None => <[o.1 := kept (inherited o.2)]> parsed
            | Some _ => parsed
            end in
  let p2 := if is_word ["false"; "0"] (p1 !! o.1)
            then <[o.1 := kept (Js.Bool false)]> p1 else p1 in
  if is_word ["true"; "1"] (p2 !! o.1) then <[o.1 := kept (Js.Bool true)]> p2 else p2.

(** The loop of [define] over an object with the properties [parsed]. *)
Definition define_on (parsed : gmap string Js.value) : gmap string Js.value :=
  foldl define_option parsed defaults.

End Define.

(** An ordinary object keeps what it is given. *)
Definition kept_by_object (v : Js.value) : Js.value := v.

(** [process.env] is not an ordinary object: Node converts every value
    that is assigned to one of its properties to a string. *)
Definition kept_by_process_env (v : Js.value) : Js.value := Js.Str (Js.to_string v).

(** [define], from the process environment as it is once the optional
    .env file has been loaded. [parsed] is [process.env] itself, which is
    never falsy, so the loop assigns to the properties of [process.env]
    and [define] returns that object. *)
Definition define (process_env : gmap string Js.value) : gmap string Js.value :=
  define_on kept_by_process_env process_env.

(** [env.THEME_ENVIRONMENT] *)
Definition THEME_ENVIRONMENT (e : gmap string Js.value) : Js.value :=
  default Js.Undefined (e !! "THEME_ENVIRONMENT").


Section Build.

(** [path.resolve], [fs.existsSync] and [fs.readdirSync]. *)
Variable resolve : string -> string.
Variable existsSync : string -> bool.
Variable readdirSync : string -> list string.

(** [hasBuild]: it reads the property [destination] of the object it
    is given. [None] stands for the TypeError of [path.resolve] on a
    truthy value that is not a string. *)
Definition hasBuild (config : option (gmap string Js.value)) : option bool :=
  match config with
  | None => Some false
  | Some c =>
      let destination := default Js.Undefined (c !! "destination") in
      if negb (Js.truthy destination) then Some false
      else match destination with
           | Js.Str d =>
               if negb (existsSync (resolve d)) then Some false
               else Some (negb (Nat.eqb (List.length (readdirSync (resolve d))) 0))
           | _ => None
           end
  end.

End Build.

End Environment.

(** ** bin/Harbor.js: the legacy driver *)

Module LegacyHarbor.

(** What [this[name](config)] hands to [await]: after how many turns of
    the event loop it settles ([None]: never; [0] for a plain value), and
    whether it then fulfils. *)
Record awaited := {
  settles : option nat;
  fulfils : bool
}.

Definition is_comma (c : ascii) : bool := (nat_of_ascii c =? 44)%nat.

(** [task.split(',')] *)
Fixpoint split (s : string) : list string :=
  match s with
  | EmptyString => [EmptyString]
  | String c rest =>
      if is_comma c then EmptyString :: split rest
      else match split rest with
           | h :: t => String c h :: t
           | [] => [String c EmptyString]
           end
  end.

Fixpoint trim_right (s : string) : string :=
  match s with
  | EmptyString => EmptyString
  | String c rest =>
      match trim_right rest with
      | EmptyString => if Environment.is_space c then EmptyString else String c EmptyString
      | r => String c r
      end
  end.

Definition trim (s : string) : string := trim_right (Environment.trim_left s).

Section Run.

(** [this[name]] when it is a function, with what a call of it hands
    back. *)
Variable method : string -> option awaited.

(** The callback of [forEach] up to its [await]: its events, and the
    continuation it leaves behind, if any. *)
Definition dispatch (name : string) : list event * option (string * awaited) :=
  match method name with
  | Some a =>
      ([Console Info ("Running task: " +:+ name); TaskCalled name], Some (name, a))
  | None => ([Console Warning ("Finished: " +:+ name +:+ ".")], None)
  end.

(** The rest of the callback, run when the awaited value has settled. *)
Definition resume (k : string * awaited) : list event :=
  if fulfils k.2 then [Console Success ("Done - " +:+ k.1)] else [].

Definition settles_at (t : nat) (k : string * awaited) : bool :=
  match settles k.2 with
  | Some u => Nat.eqb u t
  | None => false
  end.

Definition horizon (ks : list (string * awaited)) : nat :=
  foldr (fun k m => Nat.max (default 0%nat (settles k.2)) m) 0%nat ks.

(** The continuations, turn by turn, in the order they were parked. *)
Definition complete (ks : list (string * awaited)) : list event :=
  List.flat_map (fun t => List.flat_map resume (List.filter (settles_at t) ks))
    (seq 0 (S (horizon ks))).

(** [forEach] does not look at what its callback returns: it calls it
    for every element, and each call comes back at its [await]. *)
Definition forEach (tasks : list string) : list event * list (string * awaited) :=
  let runs := List.map dispatch tasks in
  (List.flat_map fst runs, omap snd runs).

(** [init], for [Argv.args.task]. *)
Definition init (task : option string) : list event :=
  match task with
  | Some t =>
      if Js.truthy (Js.Str t)
      then let '(log, parked) := forEach (List.map trim (split t)) in log ++ complete parked
      else []
  | None => []
  end.

(** What the comment above the loop announces: each task is run to its
    end before the next one starts. *)
Definition in_sequence (tasks : list string) : list event :=
  List.flat_map
    (fun name =>
       let '(log, k) := dispatch name in
       log ++ from_option resume [] k)
    tasks.

End Run.

End LegacyHarbor.

(** ** bin/services/PostcssCompiler.js, as the legacy driver loads it *)

Module PostcssCompiler.
Import Async.

(** What becomes of [processFile] on one stylesheet: [readFileSync]
    throws; the promise of postcss is rejected; or it is fulfilled with
    some warnings, after which [mkdirp] calls back with or without an
    error and [writeFileSync] returns or throws. *)
Inductive compile_result :=
| ReadThrows
| ProcessRejects
| Processed (warnings : list string) (mkdir_error : option string) (written : bool).

(** One run of the lines that close both loops: [queue += 1], then
    [cb()] if [queue >= total]. The state is the counter and the number
    of calls of [cb] so far. *)
Definition count_one (total : nat) (st : nat * nat) : nat * nat :=
  let queue := S st.1 in
  (queue, if (total <=? queue)%nat then S st.2 else st.2).

Section Compiler.

(** [this.config.THEME_SRC] and [path.join] *)
Variable THEME_SRC : string.
Variable join : string -> string -> string.
(** [glob.sync], the size [statSync] reports and what compiling a file
    comes to *)
Variable sync : string -> list string.
Variable stat_size : string -> Z.
Variable compile : string -> compile_result.
(** [entry.replace(THEME_SRC, THEME_DIST)] *)
Variable destination : string -> string.

(** [processFile]: its events and the way its promise settles. It has
    no handler for a rejection, so its promise stays pending when
    postcss fails or the write throws. *)
Definition processFile (entry : string) : list event * settle :=
  match compile entry with
  | ReadThrows => ([], Rejected "Error")
  | ProcessRejects => ([Console Info ("Compiling: " +:+ entry)], Pending)
  | Processed warnings mkdir_error written =>
      let log :=
        Console Info ("Compiling: " +:+ entry)
          :: List.map (Console Warning) warnings
          ++ match mkdir_error with
             | Some e => [Console Error e]
             | None => []
             end in
      if written
      then (log ++ [Console Success ("Successfully compiled: " +:+ destination entry)],
            Fulfilled)
      else (log, Pending)
  end.

(** [!statSync(entry).size] *)
Definition is_empty_file (entry : string) : bool := (stat_size entry =? 0)%Z.

(** The callback of the loop of [processCwd] on one entry: its events,
    and whether it gets to the lines that count. *)
Definition process_entry (entry : string) : list event * bool :=
  if is_empty_file entry
  then ([Console Warning ("Skipping empty file: " +:+ entry)], true)
  else let '(log, s) := processFile entry in
       (log, match s with Fulfilled => true | _ => false end).

(** [processCwd] on the files [cwd] of a directory: the events, and
    how often [cb] is called. The events of a file are listed together;
    the counter does not depend on the order in which the files finish. *)
Definition processCwd (cwd : list string) : list event * nat :=
  let runs := List.map process_entry cwd in
  (List.flat_map fst runs,
   (foldl (fun (st : nat * nat) (run : list event * bool) =>
             if run.2 then count_one (List.length cwd) st else st)
      (0%nat, 0%nat) runs).2).

(** [this.cwd] *)
Definition directories : list (string * list string) :=
  [("main", sync (THEME_SRC +:+ "/main/stylesheets/*.css"));
   ("modules", sync (THEME_SRC +:+ "/modules/*/*/*.css"))].

(** The callback of the loop of [init] on one directory, up to the
    lines that count. *)
Definition process_directory (d : string * list string) : list event * bool :=
  match d.2 with
  | [] =>
      ([Console Warning ("Cannot find any stylesheet witin " +:+ join THEME_SRC d.1)], true)
  | _ :: _ =>
      let '(log, calls) := processCwd d.2 in
      (Console Info ("Compiling stylesheets within: " +:+ join THEME_SRC d.1) :: log,
       negb (Nat.eqb calls 0))
  end.

(** The lines that close the loop of [init]: they count, call [cb] and
    then log a success for the directory at hand if it had files. *)
Definition close_directory (total : nat) (d : string * list string)
    (st : nat * nat * list event) : nat * nat * list event :=
  let '(queue, calls) := count_one total (st.1.1, st.1.2) in
  (queue, calls,
   st.2 ++ if (total <=? queue)%nat && negb (Nat.eqb (List.length d.2) 0)
           then [Console Success ("Done compiling within " +:+ join THEME_SRC d.1)]
           else []).

(** [init], once postcss.config.js is loaded: the events, and the way
    its promise settles. *)
Definition init : list event * settle :=
  let runs := List.map (fun d => (d, process_directory d)) directories in
  let st :=
    foldl (fun (st : nat * nat * list event)
               (run : (string * list string) * (list event * bool)) =>
             if run.2.2 then close_directory (List.length directories) run.1 st else st)
      (0%nat, 0%nat, []) runs in
  (List.flat_map (fun run => run.2.1) runs ++ st.2,
   if Nat.eqb st.1.2 0 then Pending else Fulfilled).

End Compiler.

End PostcssCompiler.

(** ** The StyleguideCompiler plugin: the builder extensions *)

Module StyleguideCompiler.

Section Builder.

(** [StyleguideCompiler.defineBuilderExtensionName]: the snake-cased
    base name of a source without its extension. *)
Variable defineBuilderExtensionName : string -> string.

(** [initial.map(name).includes(name(commit))] *)
Definition is_defined (initial : list string) (commit : string) : bool :=
  existsb (String.eqb (defineBuilderExtensionName commit))
    (List.map defineBuilderExtensionName initial).

(** The two warnings for a custom extension that is left out. *)
Definition already_exists (initial : list string) (commit : string) : list event :=
  let name := defineBuilderExtensionName commit in
  [Console Warning ("Custom builder function '" +:+ name +:+ "' already exists.");
   Console Warning
     ("Using "
        +:+ Js.to_string
              (from_option Js.Str Js.Undefined
                 (head (List.filter
                          (fun i => String.eqb name (defineBuilderExtensionName i))
                          initial)))
        +:+ " instead of: " +:+ commit)].

(** [extendBuilder]: the warnings and the list it returns. The callback
    of the filter returns [commit] itself, which is falsy for the empty
    string. *)
Definition extendBuilder (initial proposal : list string) : list event * list string :=
  (List.flat_map (already_exists initial) (List.filter (is_defined initial) proposal),
   initial ++ List.filter (fun commit => negb (is_defined initial commit)
                                         && Js.truthy (Js.Str commit))
                proposal).

End Builder.

End StyleguideCompiler.

(** ** bin/Harbor.js: the tasks of the legacy driver *)

Module LegacyTasks.
Import Async.

(** [stylesheets]: the three compilers one after the other, each
    awaited before the next one is started. [sass], [postcss] and
    [optimizer] are the ways the promises of their [init] settle. *)
Definition stylesheets (sass postcss optimizer : settle) : list event * settle :=
  match sass with
  | Fulfilled =>
      match postcss with
      | Fulfilled =>
          ([InitCalled "SassCompiler"; InitCalled "PostcssCompiler";
            InitCalled "StyleOptimizer"], optimizer)
      | other => ([InitCalled "SassCompiler"; InitCalled "PostcssCompiler"], other)
      end
  | other => ([InitCalled "SassCompiler"], other)
  end.

End LegacyTasks.

(** * Predicates and sample inputs of the properties *)

(** A unit gated to production, as index.js builds its JsOptimizer,
    while the run is a development run. *)
Definition gated_unit : BaseService.service :=
  {| BaseService.name := "JsOptimizer";
     BaseService.env := {| BaseService.THEME_ENVIRONMENT := Js.Str "development";
                           BaseService.THEME_SRC := "src";
                           BaseService.THEME_DIST := "dist" |};
     BaseService.cfg := {| BaseService.hook := Js.Str "minify";
                           BaseService.entry_patterns := None |};
     BaseService.tools := {| BaseService.has_TaskManager := true;
                             BaseService.has_TaskManager_resolve := true |};
     BaseService.opts := Some (BaseService.defineOptions (Some (Js.Str "production")));
     BaseService.entry := None |}.

Definition is_console (e : event) : bool :=
  match e with Console _ _ => true | _ => false end.

(** The scenario of the specification: [sass] rejects and [postcss]
    resolves under the hook [stylesheets]; the command line also asks for
    the plugin behind the flag [watch]. *)
Definition scenario_argv : argv :=
  {| task := Js.Str "stylesheets";
     args := [("watch", Js.Bool true); ("customArgs", Js.Obj)];
     customArgs := Some [] |}.

Definition scenario_result : PublishResult :=
  {| completed := Some ["postcss"]; exceptions := Some ["sass"] |}.

Definition no_result : PublishResult :=
  {| completed := Some []; exceptions := Some [] |}.



(** A file that is read, minified to a non-empty text and written
    completes its callback without a signal. *)
Definition optimizes (readFile : string -> JsOptimizer.read_result)
    (minify : string -> JsOptimizer.minified) (path : string) : Prop :=
  path <> "" /\
  exists data text,
    readFile path = JsOptimizer.ReadData data /\
    JsOptimizer.error (minify data) = None /\
    JsOptimizer.code (minify data) = Some text /\ text <> "".

(** Two files that are gone by the time the plugin runs. *)
Definition unreadable_unit : BaseService.service :=
  {| BaseService.name := "JsOptimizer";
     BaseService.env := {| BaseService.THEME_ENVIRONMENT := Js.Str "production";
                           BaseService.THEME_SRC := "src";
                           BaseService.THEME_DIST := "dist" |};
     BaseService.cfg := {| BaseService.hook := Js.Str "minify";
                           BaseService.entry_patterns := Some [("main", "main/*.js")] |};
     BaseService.tools := {| BaseService.has_TaskManager := true;
                             BaseService.has_TaskManager_resolve := true |};
     BaseService.opts := Some (BaseService.defineOptions (Some (Js.Str "production")));
     BaseService.entry := Some [["dist/main/a.js"; "dist/main/b.js"]] |}.

(** A worker whose configuration has no entry, after [defineEntry]. *)
Definition unit_without_entry : BaseService.service :=
  (BaseService.defineEntry (fun base pattern => base +:+ "/" +:+ pattern) (fun _ => [])
     (fun _ => 0%Z)
     {| BaseService.name := "StyleguideHelper";
        BaseService.env := {| BaseService.THEME_ENVIRONMENT := Js.Str "production";
                              BaseService.THEME_SRC := "src";
                              BaseService.THEME_DIST := "dist" |};
        BaseService.cfg := {| BaseService.hook := Js.Str "styleguide";
                              BaseService.entry_patterns := None |};
        BaseService.tools := {| BaseService.has_TaskManager := true;
                                BaseService.has_TaskManager_resolve := true |};
        BaseService.opts := Some (BaseService.defineOptions None);
        BaseService.entry := None |}
     false).2.

Definition is_success (e : event) : bool :=
  match e with Console Success _ => true | _ => false end.

(** Two tasks: [stylesheets] takes three turns, [clean] none. *)
Definition two_methods (name : string) : option LegacyHarbor.awaited :=
  if String.eqb name "stylesheets"
  then Some {| LegacyHarbor.settles := Some 3%nat; LegacyHarbor.fulfils := true |}
  else if String.eqb name "clean"
       then Some {| LegacyHarbor.settles := Some 0%nat; LegacyHarbor.fulfils := true |}
       else None.

(** What the two string tests of [define] turn a value into. *)
Definition coerced (kept : Js.value -> Js.value) (v : Js.value) : Js.value :=
  let v2 := if Environment.is_word ["false"; "0"] (Some v) then kept (Js.Bool false) else v in
  if Environment.is_word ["true"; "1"] (Some v2) then kept (Js.Bool true) else v2.

(** A unit with a task manager, gated to [accepted], in a run whose
    environment is [environment]. *)
Definition unit_gated_to (accepted : Js.value) (environment : Js.value)
  : BaseService.service :=
  {| BaseService.name := "Watcher";
     BaseService.env := {| BaseService.THEME_ENVIRONMENT := environment;
                           BaseService.THEME_SRC := "src";
                           BaseService.THEME_DIST := "dist" |};
     BaseService.cfg := {| BaseService.hook := Js.Str "watch";
                           BaseService.entry_patterns :=
                             Some [("main", "main/*.js"); ("modules", "modules/*.js")] |};
     BaseService.tools := {| BaseService.has_TaskManager := true;
                             BaseService.has_TaskManager_resolve := true |};
     BaseService.opts := Some (BaseService.defineOptions (Some accepted));
     BaseService.entry := None |}.

(** A file system with two scripts under main, one of them empty, and
    one empty script under modules. *)
Definition sample_sync (pattern : string) : list string :=
  if String.eqb pattern "src/main/*.js" then ["src/main/a.js"; "src/main/b.js"]
  else if String.eqb pattern "src/modules/*.js" then ["src/modules/c.js"]
  else [].

Definition sample_size (path : string) : Z :=
  if String.eqb path "src/main/a.js" then 12%Z else 0%Z.

Definition sample_join (base pattern : string) : string := base +:+ "/" +:+ pattern.

(** [fs.readFile] called back with an error for this path. *)
Definition is_unreadable (readFile : string -> JsOptimizer.read_result) (path : string)
  : bool :=
  match readFile path with
  | JsOptimizer.ReadError _ => true
  | JsOptimizer.ReadData _ => false
  end.


(** A plugin with a task manager and the entry groups [groups]. *)
Definition optimizer_with (groups : list (list string)) : BaseService.service :=
  {| BaseService.name := "JsOptimizer";
     BaseService.env := {| BaseService.THEME_ENVIRONMENT := Js.Str "production";
                           BaseService.THEME_SRC := "src";
                           BaseService.THEME_DIST := "dist" |};
     BaseService.cfg := {| BaseService.hook := Js.Str "minify";
                           BaseService.entry_patterns := Some [("main", "main/*.js")] |};
     BaseService.tools := {| BaseService.has_TaskManager := true;
                             BaseService.has_TaskManager_resolve := true |};
     BaseService.opts := Some (BaseService.defineOptions (Some (Js.Str "production")));
     BaseService.entry := Some groups |}.

(** Of three scripts, b.js cannot be read and c.js minifies to
    nothing. *)
Definition sample_readFile (path : string) : JsOptimizer.read_result :=
  if String.eqb path "dist/b.js" then JsOptimizer.ReadError "EACCES"
  else if String.eqb path "dist/c.js" then JsOptimizer.ReadData "/* only a comment */"
  else JsOptimizer.ReadData "var a = 1;".

Definition sample_minify (data : string) : JsOptimizer.minified :=
  if String.eqb data "var a = 1;"
  then {| JsOptimizer.code := Some "var a=1;"; JsOptimizer.error := None |}
  else {| JsOptimizer.code := Some ""; JsOptimizer.error := None |}.

(** A story folder in which only button.stories.js exists already. *)
Definition sample_story_exists (destination : string) : bool :=
  String.eqb destination "src/button.stories.js".

Definition sample_story_destination (dir source : string) : string :=
  source +:+ ".stories.js".

Definition helper_with (groups : option (list (list string))) : BaseService.service :=
  {| BaseService.name := "StyleguideHelper";
     BaseService.env := {| BaseService.THEME_ENVIRONMENT := Js.Str "development";
                           BaseService.THEME_SRC := "src";
                           BaseService.THEME_DIST := "dist" |};
     BaseService.cfg := {| BaseService.hook := Js.Str "styleguide";
                           BaseService.entry_patterns := Some [("main", "*.twig")] |};
     BaseService.tools := {| BaseService.has_TaskManager := true;
                             BaseService.has_TaskManager_resolve := true |};
     BaseService.opts := Some (BaseService.defineOptions None);
     BaseService.entry := groups |}.

(** How many of [sources] have the base title [t]. *)
Definition uses_of (module_name : string -> string) (title_dirs : string -> list string)
    (title_config : option StyleguideHelper.title_options) (t : string)
    (sources : list string) : nat :=
  List.length
    (List.filter
       (fun s => String.eqb (StyleguideHelper.base_title module_name title_dirs title_config s) t)
       sources).

(** Sources named after their title, for a unit without options. *)
Definition plain_name (source : string) : string := source.
Definition no_dirs (source : string) : list string := [].

(** The title for a base title that was used [k - 1] times before. *)
Definition kth_title (base : string) (k : nat) : string :=
  if Nat.eqb k 1 then base else base +:+ "__" +:+ pretty k.

(** Every title of the table was used at least once. *)
Definition positive (titles : gmap string nat) : Prop :=
  forall t n, titles !! t = Some n -> (0 < n)%nat.

(** The names of the tasks that were called, in the order of the calls. *)
Definition task_calls (es : list event) : list string :=
  omap (fun e => match e with TaskCalled name => Some name | _ => None end) es.

(** The text [define] leaves for a string value of an option that has a
    default. *)
Definition defined_text (s : string) : string :=
  if existsb (String.eqb (Environment.toLowerCase s)) ["false"; "0"] then "false"
  else if existsb (String.eqb (Environment.toLowerCase s)) ["true"; "1"] then "true"
  else s.

(** A stylesheet is compiled when it is empty, and skipped, or when the
    promise of [processFile] for it is fulfilled. *)
Definition is_compiled (stat_size : string -> Z)
    (compile : string -> PostcssCompiler.compile_result)
    (destination : string -> string) (entry : string) : Prop :=
  PostcssCompiler.is_empty_file stat_size entry = false ->
  (PostcssCompiler.processFile compile destination entry).2 = Async.Fulfilled.

(** Two stylesheets in the main directory, the second one empty, and
    none in the modules. *)
Definition css_sync (pattern : string) : list string :=
  if String.eqb pattern "src/main/stylesheets/*.css"
  then ["src/main/stylesheets/a.css"; "src/main/stylesheets/b.css"]
  else [].

Definition css_size (path : string) : Z :=
  if String.eqb path "src/main/stylesheets/b.css" then 0%Z else 20%Z.

(** postcss rejects every stylesheet. *)
Definition css_rejected (path : string) : PostcssCompiler.compile_result :=
  PostcssCompiler.ProcessRejects.

Definition css_destination (path : string) : string := "dist/" +:+ path.

(** * Properties *)

(** ** The environment gate and the signal of the stub *)

Lemma initIfAccepted_rejects (s : BaseService.service) (l : list Js.value) :
  BaseService.opts s = Some {| BaseService.acceptedEnvironments := Some l |} ->
  l <> [] ->
  Js.includes_value l (BaseService.THEME_ENVIRONMENT (BaseService.env s)) = false ->
  BaseService.initIfAccepted s = false.
Proof.
  intros Hopts Hne Hout. unfold BaseService.initIfAccepted. rewrite Hopts. simpl.
  destruct l as [| v l']; [congruence |]. by rewrite Hout.
Qed.

(** C2. A unit whose non-empty [acceptedEnvironments] does not hold the
    current environment subscribes the stub, never its [init]. Whenever
    the stub is run afterwards, on the unit in whatever state [s'] it
    then is (the closure does not test the environment again), it logs a
    warning, sends the one signal [resolve()] without a failure flag and
    does not call [init]; the cycle's result lists the unit under
    [completed] and not under [exceptions]. *)
Theorem C2_gated_unit_subscribes_stub
    (s : BaseService.service) (hk l : list Js.value)
    (Htools : BaseService.tools s =
                {| BaseService.has_TaskManager := true;
                   BaseService.has_TaskManager_resolve := true |})
    (Hopts : BaseService.opts s = Some {| BaseService.acceptedEnvironments := Some l |})
    (Hne : l <> [])
    (Hout : Js.includes_value l (BaseService.THEME_ENVIRONMENT (BaseService.env s)) = false) :
  BaseService.subscribe s hk = [TMSubscribe (BaseService.name s) hk HStub] /\
  forall (s' : BaseService.service) (run_init : BaseService.service -> list event),
    BaseService.name s' = BaseService.name s ->
    BaseService.tools s' = BaseService.tools s ->
    let run := BaseService.run_handler HStub s' run_init in
    (exists msg, run = [Console Warning msg;
                        Console Log ("Resolving service: " +:+ BaseService.name s);
                        TMResolve (BaseService.name s) Js.Undefined]) /\
    (forall n, InitCalled n ∉ run) /\
    signals run = [TMResolve (BaseService.name s) Js.Undefined] /\
    TaskManager.aggregate run =
      {| completed := Some [BaseService.name s]; exceptions := Some [] |}.
Proof.
  split.
  - unfold BaseService.subscribe. rewrite Htools. simpl.
    by rewrite (initIfAccepted_rejects s l Hopts Hne Hout).
  - intros s' run_init Hname Htools'. simpl.
    unfold BaseService.stub, BaseService.resolve. rewrite Htools', Htools, Hname. simpl.
    split; [eauto |]. split; [| done].
    intros n Hin.
    repeat (apply elem_of_cons in Hin as [Hin | Hin]; [discriminate |]).
    by apply elem_of_nil in Hin.
Qed.

(** The constructor of a unit gated to production subscribes the stub
    when it is built in a development run. *)
Example construct_gated_unit :
  (BaseService.construct "JsOptimizer" (BaseService.env gated_unit)
     (BaseService.cfg gated_unit)
     (Some (BaseService.tools gated_unit, ["TaskManager"]))
     (Some (Js.Str "production"))).1
  = [Console Log "Assigning tool: TaskManager from service: JsOptimizer as JsOptimizer, minify";
     TMSubscribe "JsOptimizer" [Js.Str "JsOptimizer"; Js.Str "minify"] HStub].
Proof. reflexivity. Qed.

(** ** Hook lists *)

Lemma constructor_hook_has_name (s : BaseService.service) :
  Js.includes_str (BaseService.constructor_hook s) (BaseService.name s) = true.
Proof.
  unfold BaseService.constructor_hook.
  destruct (_ && _); simpl; by rewrite String.eqb_refl.
Qed.

Lemma mount_hook_has_name (name : string) (hook : Js.value) :
  Js.truthy hook = true ->
  Js.includes_str (Coordinator.mount_hook name hook) name = true.
Proof.
  intros Ht. unfold Coordinator.mount_hook. rewrite Ht. simpl.
  destruct (Js.strict_eq_str hook name) eqn:Heq; simpl.
  - destruct hook; simpl in *; try discriminate. by rewrite Heq.
  - by rewrite String.eqb_refl.
Qed.

(** For a falsy [hook], [mount] passes the hook alone: the name of the
    unit is not in the list. *)
Lemma mount_hook_lacks_name (name : string) (hook : Js.value) :
  Js.truthy hook = false -> name <> "" ->
  Coordinator.mount_hook name hook = [hook] /\
  Js.includes_str (Coordinator.mount_hook name hook) name = false.
Proof.
  intros Hfalsy Hname. unfold Coordinator.mount_hook. rewrite Hfalsy. simpl.
  destruct hook as [| | b | n | t | l |]; simpl in *; try done.
  split; [done |]. rewrite orb_false_r.
  destruct (String.eqb t "") eqn:Ht; [| discriminate].
  apply String.eqb_eq in Ht as ->. by apply String.eqb_neq.
Qed.

(** C5. [mount] on a unit whose configuration has no [hook] subscribes
    it with the one-element list [[undefined]]: its own name is not in
    the list, and the registry built from that call has nothing under
    the hook of that name. The constructor of the base class subscribes
    the same unit under its name. *)
Theorem C5_mount_without_hook_omits_name :
  let config : gmap string Js.value := {[ "Cleaner" := Js.Undefined ]} in
  let s := {| BaseService.name := "Cleaner";
              BaseService.env := {| BaseService.THEME_ENVIRONMENT := Js.Str "production";
                                    BaseService.THEME_SRC := "src";
                                    BaseService.THEME_DIST := "dist" |};
              BaseService.cfg := {| BaseService.hook := Js.Undefined;
                                    BaseService.entry_patterns := None |};
              BaseService.tools := {| BaseService.has_TaskManager := true;
                                      BaseService.has_TaskManager_resolve := true |};
              BaseService.opts := Some (BaseService.defineOptions None);
              BaseService.entry := None |} in
  Coordinator.mount ["Cleaner"] config = ([("Cleaner", [Js.Undefined])], Returned) /\
  Js.includes_str (Coordinator.mount_hook "Cleaner" Js.Undefined) "Cleaner" = false /\
  (TaskManager.replay (BaseService.subscribe s (Coordinator.mount_hook "Cleaner" Js.Undefined)) []
     ≫= fun r => Some (TaskManager.under_hook r "Cleaner")) = Some [] /\
  BaseService.constructor_hook s = [Js.Str "Cleaner"].
Proof. vm_compute. repeat split; reflexivity. Qed.

(** ** The entry lists *)

Lemma keep_entry_true (stat_size : string -> Z) (e : string) :
  BaseService.keep_entry stat_size e = true <-> (0 < stat_size e)%Z /\ e <> "".
Proof.
  unfold BaseService.keep_entry. destruct (0 <? stat_size e)%Z eqn:Hsz; simpl.
  - apply Z.ltb_lt in Hsz. destruct (String.eqb e "") eqn:He; simpl.
    + apply String.eqb_eq in He. split; [discriminate | tauto].
    + apply String.eqb_neq in He. tauto.
  - apply Z.ltb_ge in Hsz. split; [discriminate | lia].
Qed.

Section EntryFacts.

Variable join : string -> string -> string.
Variable sync : string -> list string.
Variable stat_size : string -> Z.

Lemma defineEntry_entry (s : BaseService.service) (useDestination : bool) :
  BaseService.entry (BaseService.defineEntry join sync stat_size s useDestination).2 =
  match BaseService.entry_patterns (BaseService.cfg s) with
  | None | Some [] => BaseService.entry s
  | Some entries =>
      Some (List.filter (fun g => negb (Nat.eqb (List.length g) 0))
              (List.map (List.filter (BaseService.keep_entry stat_size))
                 (List.map
                    (fun ne => BaseService.resolve_pattern join sync s useDestination ne.2)
                    entries)))
  end.
Proof.
  unfold BaseService.defineEntry.
  by destruct (BaseService.entry_patterns (BaseService.cfg s)) as [[| ne0 rest] |].
Qed.

End EntryFacts.

(** C10. With no entry configuration (none at all, or an object without
    keys) [defineEntry] leaves [this.entry] as it was, so undefined if it
    was. Otherwise [this.entry] becomes a list of groups such that every
    group is non-empty and consists of files matched by one configured
    pattern whose size is above zero; and every matched file with a
    size above zero is in some group. *)
Theorem C10_defineEntry_keeps_non_empty_files
    (join : string -> string -> string) (sync : string -> list string)
    (stat_size : string -> Z) (s : BaseService.service) (useDestination : bool) :
  let s' := (BaseService.defineEntry join sync stat_size s useDestination).2 in
  match BaseService.entry_patterns (BaseService.cfg s) with
  | None | Some [] => BaseService.entry s' = BaseService.entry s
  | Some entries =>
      exists groups,
        BaseService.entry s' = Some groups /\
        Forall (fun g =>
                  g <> [] /\
                  exists ne, ne ∈ entries /\
                    Forall (fun p =>
                              p ∈ BaseService.resolve_pattern join sync s useDestination ne.2
                              /\ (0 < stat_size p)%Z) g) groups /\
        (forall ne p,
            ne ∈ entries ->
            p ∈ BaseService.resolve_pattern join sync s useDestination ne.2 ->
            (0 < stat_size p)%Z -> p <> "" ->
            exists g, g ∈ groups /\ p ∈ g)
  end.
Proof.
  intros s'. subst s'. rewrite defineEntry_entry.
  destruct (BaseService.entry_patterns (BaseService.cfg s)) as [entries |]; [| done].
  destruct entries as [| ne0 rest]; [done |].
  remember (ne0 :: rest) as entries eqn:Hentries. clear Hentries.
  eexists. split; [reflexivity |]. split.
  - apply Forall_forall. intros g Hg.
    apply list_elem_of_In, filter_In in Hg as [Hg Hlen].
    apply in_map_iff in Hg as [m [<- Hm]].
    apply in_map_iff in Hm as [ne [<- Hne]].
    split.
    + intros Hnil. rewrite Hnil in Hlen. discriminate.
    + exists ne. split; [by apply list_elem_of_In |].
      apply Forall_forall. intros p Hp.
      apply list_elem_of_In, filter_In in Hp as [Hp Hkeep].
      apply keep_entry_true in Hkeep as [Hsz _].
      split; [by apply list_elem_of_In | done].
  - intros ne p Hne Hp Hsz Hnonempty.
    exists (List.filter (BaseService.keep_entry stat_size)
              (BaseService.resolve_pattern join sync s useDestination ne.2)).
    assert (Hin : In p (List.filter (BaseService.keep_entry stat_size)
                          (BaseService.resolve_pattern join sync s useDestination ne.2))).
    { apply filter_In. split; [by apply list_elem_of_In |]. by apply keep_entry_true. }
    split; [| by apply list_elem_of_In].
    apply list_elem_of_In, filter_In. split.
    + apply in_map_iff. eexists. split; [reflexivity |].
      apply in_map_iff. exists ne. split; [reflexivity | by apply list_elem_of_In].
    + destruct (List.filter _ _); [destruct Hin | reflexivity].
Qed.

Lemma C2_gated_unit_subscribes_stub_witness :
  BaseService.subscribe gated_unit [Js.Str "JsOptimizer"; Js.Str "minify"] =
    [TMSubscribe "JsOptimizer" [Js.Str "JsOptimizer"; Js.Str "minify"] HStub] /\
  forall (s' : BaseService.service) (run_init : BaseService.service -> list event),
    BaseService.name s' = "JsOptimizer" ->
    BaseService.tools s' = BaseService.tools gated_unit ->
    let run := BaseService.run_handler HStub s' run_init in
    (exists msg, run = [Console Warning msg;
                        Console Log "Resolving service: JsOptimizer";
                        TMResolve "JsOptimizer" Js.Undefined]) /\
    (forall n, InitCalled n ∉ run) /\
    signals run = [TMResolve "JsOptimizer" Js.Undefined] /\
    TaskManager.aggregate run =
      {| completed := Some ["JsOptimizer"]; exceptions := Some [] |}.
Proof.
  apply (C2_gated_unit_subscribes_stub gated_unit
           [Js.Str "JsOptimizer"; Js.Str "minify"] [Js.Str "production"]);
    [reflexivity | reflexivity | discriminate | reflexivity].
Defined.

(** ** The failure policy of the run coordinator *)

Lemma validateResult_console (env : Js.value) (results : PublishResult) (type : Js.value) :
  forallb is_console (Harbor.validateResult env results type).1 = true.
Proof.
  unfold Harbor.validateResult.
  destruct (_ && _); [reflexivity |].
  destruct (Coordinator.nonempty (completed results)).
  - by destruct (Coordinator.defined_empty (exceptions results)).
  - by destruct (Coordinator.nonempty (exceptions results)).
Qed.

Lemma validateResult_static_console (env : Js.value) (results : PublishResult) :
  forallb is_console (HarborStatic.validateResult env results).1 = true.
Proof.
  unfold HarborStatic.validateResult.
  destruct (_ && _); [reflexivity |].
  destruct (Coordinator.nonempty (completed results)).
  - by destruct (Coordinator.defined_empty (exceptions results)).
  - by destruct (Coordinator.nonempty (exceptions results)).
Qed.

(** Outside development a result with exceptions makes [validateResult]
    throw, in both revisions. *)
Lemma validateResult_throws (env : Js.value) (results : PublishResult) (type : Js.value) :
  Coordinator.nonempty (exceptions results) = true ->
  Js.strict_eq_str env "development" = false ->
  exists msg, Harbor.validateResult env results type = ([Console Error msg], Thrown msg).
Proof.
  intros Hex Henv. unfold Harbor.validateResult. rewrite Hex, Henv. simpl. eauto.
Qed.

Lemma validateResult_static_throws (env : Js.value) (results : PublishResult) :
  Coordinator.nonempty (exceptions results) = true ->
  Js.strict_eq_str env "development" = false ->
  exists msg, HarborStatic.validateResult env results = ([], Thrown msg).
Proof.
  intros Hex Henv. unfold HarborStatic.validateResult. rewrite Hex, Henv. simpl. eauto.
Qed.

(** In development it returns, whatever the result. *)
Lemma validateResult_development_returns (results : PublishResult) (type : Js.value) :
  (Harbor.validateResult (Js.Str "development") results type).2 = Returned /\
  (HarborStatic.validateResult (Js.Str "development") results).2 = Returned.
Proof.
  unfold Harbor.validateResult, HarborStatic.validateResult. simpl.
  rewrite andb_false_r. done.
Qed.

(** In development the exceptions are logged when nothing completed. *)
Lemma validateResult_development_logs_when_none_completed
    (results : PublishResult) (type : Js.value) :
  Coordinator.nonempty (exceptions results) = true ->
  Coordinator.nonempty (completed results) = false ->
  (exists msg, Harbor.validateResult (Js.Str "development") results type
               = ([Console Warning msg], Returned)) /\
  (exists msg, HarborStatic.validateResult (Js.Str "development") results
               = ([Console Warning msg], Returned)).
Proof.
  intros Hex Hco. unfold Harbor.validateResult, HarborStatic.validateResult. simpl.
  rewrite andb_false_r, Hco, Hex. eauto.
Qed.

(** In development a result that has both completed units and
    exceptions goes through [validateResult] without a line of log. *)
Lemma validateResult_development_silent (results : PublishResult) (type : Js.value) :
  Coordinator.nonempty (completed results) = true ->
  Coordinator.nonempty (exceptions results) = true ->
  Harbor.validateResult (Js.Str "development") results type = ([], Returned) /\
  HarborStatic.validateResult (Js.Str "development") results = ([], Returned).
Proof.
  intros Hco Hex. unfold Harbor.validateResult, HarborStatic.validateResult. simpl.
  rewrite andb_false_r, Hco.
  destruct (exceptions results) as [[| e es] |]; done.
Qed.

(** C3. In development, for a result in which one unit completed and
    another one failed, [validateResult] returns without having logged
    anything: the exceptions are not reported. Both revisions of
    index.js behave so. *)
Theorem C3_development_mixed_result_is_silent :
  let results := {| completed := Some ["postcss"]; exceptions := Some ["sass"] |} in
  Harbor.validateResult (Js.Str "development") results Js.Undefined = ([], Returned) /\
  HarborStatic.validateResult (Js.Str "development") results = ([], Returned).
Proof. split; reflexivity. Qed.

Lemma console_only (l : list event) (e : event) :
  forallb is_console l = true -> e ∈ l -> is_console e = true.
Proof.
  intros Hall Hin. apply list_elem_of_In in Hin.
  by apply (proj1 (forallb_forall is_console l) Hall).
Qed.

Section CoordinatorFacts.

Variable THEME_ENVIRONMENT : Js.value.
Variable publish_workers : list Js.value -> PublishResult.
Variable publish_plugins : string -> PublishResult.
Variable workerHooks : list string.
Variable plugin_hooks : list Js.value.

Local Abbreviation validateResult := (Harbor.validateResult THEME_ENVIRONMENT).
Local Abbreviation workers_cycle := (Harbor.workers_cycle THEME_ENVIRONMENT publish_workers).
Local Abbreviation plugins_cycle := (Harbor.plugins_cycle THEME_ENVIRONMENT publish_plugins plugin_hooks).
Local Abbreviation init :=
  (Harbor.init THEME_ENVIRONMENT publish_workers publish_plugins workerHooks plugin_hooks).

Lemma workers_cycle_events (tasks : list Js.value) (e : event) :
  e ∈ (workers_cycle tasks).1 ->
  (e = PublishWorkers tasks /\ tasks <> []) \/ is_console e = true.
Proof.
  unfold Harbor.workers_cycle. destruct tasks as [| t ts].
  - simpl. intros Hin. apply list_elem_of_singleton in Hin as ->. by right.
  - pose proof (validateResult_console THEME_ENVIRONMENT (publish_workers (t :: ts)) Js.Undefined)
      as Hlog.
    destruct (validateResult _ _) as [log o]. simpl in *.
    intros [-> | Hin]%elem_of_cons; [by left |].
    right. by eapply console_only.
Qed.

Lemma plugins_cycle_events (a : argv) (e : event) :
  e ∈ (plugins_cycle a).1 ->
  e = Mount Plugins \/
  e = PublishPlugins (Js.join "," (Coordinator.requested_plugins (args a) plugin_hooks)) None \/
  is_console e = true.
Proof.
  unfold Harbor.plugins_cycle.
  destruct (Coordinator.requested_plugins (args a) plugin_hooks) as [| p ps] eqn:Hreq.
  - simpl. intros Hin. by apply elem_of_nil in Hin.
  - pose proof (validateResult_console THEME_ENVIRONMENT
                  (publish_plugins (Js.join "," (p :: ps))) Js.Undefined) as Hlog.
    destruct (validateResult _ _) as [log o]. simpl in *.
    intros [-> | [-> | [-> | Hin]%elem_of_cons]%elem_of_cons]%elem_of_cons; auto.
    right. right. by eapply console_only.
Qed.

(** The trace of [init] when the first half of the [try] block throws:
    the plugins are not reached. *)
Lemma init_workers_abort (a : argv) (tasks : list Js.value) (msg : string) :
  Coordinator.define_tasks (task a) (customArgs a) workerHooks = Some tasks ->
  (workers_cycle tasks).2 = Thrown msg ->
  init a = (Mount Workers :: (workers_cycle tasks).1,
            Harbor.rethrow (Thrown msg)).
Proof.
  intros Htasks Hthrown. unfold Harbor.init. rewrite Htasks.
  destruct (workers_cycle tasks) as [log o]. simpl in *. by subst o.
Qed.


(** The workers cycle that [init] ran, read back from its trace. *)
Lemma init_published_workers (a : argv) (tasks : list Js.value) :
  PublishWorkers tasks ∈ (init a).1 ->
  Coordinator.define_tasks (task a) (customArgs a) workerHooks = Some tasks /\ tasks <> [].
Proof.
  unfold Harbor.init.
  destruct (Coordinator.define_tasks _ _ _) as [ts |] eqn:Htasks; simpl.
  - intros Hin.
    assert (Hw : PublishWorkers tasks ∈ (workers_cycle ts).1).
    { destruct (workers_cycle ts) as [log1 [| m]] eqn:Hcycle; simpl in *.
      - destruct (plugins_cycle a) as [log2 o2] eqn:Hplug. simpl in Hin.
        apply elem_of_cons in Hin as [Hin | Hin]; [discriminate |].
        apply elem_of_app in Hin as [Hin | Hin]; [done |].
        assert (Hp : PublishWorkers tasks ∈ (plugins_cycle a).1) by (by rewrite Hplug).
        apply plugins_cycle_events in Hp as [Hp | [Hp | Hp]]; discriminate.
      - apply elem_of_cons in Hin as [Hin | Hin]; [discriminate | done]. }
    apply workers_cycle_events in Hw as [[Heq Hne] | Hc]; [| discriminate].
    injection Heq as ->. done.
  - intros Hin. apply list_elem_of_singleton in Hin. discriminate.
Qed.

Lemma workers_cycle_throws (tasks : list Js.value) :
  tasks <> [] ->
  Coordinator.nonempty (exceptions (publish_workers tasks)) = true ->
  Js.strict_eq_str THEME_ENVIRONMENT "development" = false ->
  exists msg, (workers_cycle tasks).2 = Thrown msg.
Proof.
  intros Hne Hex Henv. unfold Harbor.workers_cycle.
  destruct tasks as [| t ts]; [done |].
  destruct (validateResult_throws THEME_ENVIRONMENT (publish_workers (t :: ts)) Js.Undefined
              Hex Henv) as [msg ->].
  simpl. eauto.
Qed.

End CoordinatorFacts.

(** C4. If [init] ran a workers cycle whose result has exceptions and
    the environment is not development, then [init] throws, and neither
    the mounting of the plugins nor a plugins publish is among the
    events of the run. *)
Theorem C4_worker_failure_aborts_before_plugins
    (THEME_ENVIRONMENT : Js.value)
    (publish_workers : list Js.value -> PublishResult)
    (publish_plugins : string -> PublishResult)
    (workerHooks : list string) (plugin_hooks : list Js.value)
    (a : argv) (tasks : list Js.value)
    (Hran : PublishWorkers tasks ∈
              (Harbor.init THEME_ENVIRONMENT publish_workers publish_plugins
                 workerHooks plugin_hooks a).1)
    (Hexceptions : Coordinator.nonempty (exceptions (publish_workers tasks)) = true)
    (Hstrict : Js.strict_eq_str THEME_ENVIRONMENT "development" = false) :
  let run := Harbor.init THEME_ENVIRONMENT publish_workers publish_plugins
               workerHooks plugin_hooks a in
  (exists msg, run.2 = Thrown msg) /\
  (Mount Plugins ∉ run.1) /\
  (forall request extra, PublishPlugins request extra ∉ run.1).
Proof.
  apply init_published_workers in Hran as [Htasks Hne].
  destruct (workers_cycle_throws THEME_ENVIRONMENT publish_workers tasks Hne Hexceptions Hstrict)
    as [msg Hthrown].
  intros run. subst run.
  rewrite (init_workers_abort _ _ _ _ _ _ _ _ Htasks Hthrown). simpl.
  split; [eauto |].
  assert (Hno : forall e, is_console e = false ->
                          (forall ts, e <> PublishWorkers ts) -> e <> Mount Workers ->
                          e ∉ Mount Workers :: (Harbor.workers_cycle THEME_ENVIRONMENT
                                                  publish_workers tasks).1).
  { intros e Hc Hp Hm Hin.
    apply elem_of_cons in Hin as [Hin | Hin]; [done |].
    apply workers_cycle_events in Hin as [[Heq _] | Hc']; [by eapply Hp | congruence]. }
  split; [| intros request extra]; by apply Hno.
Qed.

Lemma C4_worker_failure_aborts_before_plugins_witness :
  let run := Harbor.init (Js.Str "production") (fun _ => scenario_result) (fun _ => no_result)
               ["sass"; "postcss"; "stylesheets"] [Js.Str "watch"] scenario_argv in
  (exists msg, run.2 = Thrown msg) /\
  (Mount Plugins ∉ run.1) /\
  (forall request extra, PublishPlugins request extra ∉ run.1).
Proof.
  apply (C4_worker_failure_aborts_before_plugins (Js.Str "production")
           (fun _ => scenario_result) (fun _ => no_result)
           ["sass"; "postcss"; "stylesheets"] [Js.Str "watch"] scenario_argv
           [Js.Str "stylesheets"]);
    [vm_compute; apply list_elem_of_further, list_elem_of_here | reflexivity | reflexivity].
Defined.

(** The other revision of index.js aborts in the same way. *)
Lemma static_worker_failure_aborts_before_plugins
    (THEME_ENVIRONMENT : Js.value)
    (publishWorkers : list Js.value -> PublishResult)
    (publishPlugins : string -> list Js.value -> PublishResult)
    (workerHooks : list string) (plugin_hooks : list Js.value) (hasBuild : bool)
    (a : argv) (tasks : list Js.value) :
  Coordinator.define_tasks (task a) (customArgs a) workerHooks = Some tasks ->
  tasks <> [] ->
  Coordinator.nonempty (exceptions (publishWorkers tasks)) = true ->
  Js.strict_eq_str THEME_ENVIRONMENT "development" = false ->
  exists msg,
    HarborStatic.init THEME_ENVIRONMENT publishWorkers publishPlugins
      workerHooks plugin_hooks hasBuild a
    = ([Mount Workers; PublishWorkers tasks;
        Console Error "Harbor stopped because of an error:"], Thrown msg).
Proof.
  intros Htasks Hne Hex Henv. unfold HarborStatic.init. rewrite Htasks.
  destruct tasks as [| t ts]; [done |]. unfold HarborStatic.workers_cycle.
  destruct (validateResult_static_throws THEME_ENVIRONMENT (publishWorkers (t :: ts)) Hex Henv)
    as [msg ->].
  simpl. eauto.
Qed.

(** ** Which command line flags ask for the plugins cycle *)

Lemma existsb_eqb_elem_of (x : string) (l : list string) :
  existsb (String.eqb x) l = true <-> x ∈ l.
Proof.
  rewrite existsb_exists. split.
  - intros [y [Hin Heq]]. apply String.eqb_eq in Heq as ->. by apply list_elem_of_In.
  - intros Hin. exists x. split; [by apply list_elem_of_In | apply String.eqb_refl].
Qed.







(** The other revision issues the plugins publish under the same
    condition, and hands it the task list as well. *)
Lemma static_plugins_cycle_request
    (THEME_ENVIRONMENT : Js.value)
    (publishPlugins : string -> list Js.value -> PublishResult)
    (plugin_hooks : list Js.value) (a : argv) (tasks : list Js.value) :
  match Coordinator.requested_plugins (args a) plugin_hooks with
  | [] => HarborStatic.plugins_cycle THEME_ENVIRONMENT publishPlugins plugin_hooks a tasks
          = ([], Returned)
  | names =>
      PublishPlugins (Js.join "," names) (Some tasks)
        ∈ (HarborStatic.plugins_cycle THEME_ENVIRONMENT publishPlugins plugin_hooks a tasks).1
  end.
Proof.
  unfold HarborStatic.plugins_cycle.
  destruct (Coordinator.requested_plugins (args a) plugin_hooks) as [| p ps]; [done |].
  destruct (HarborStatic.validateResult _ _) as [log o]. simpl.
  apply list_elem_of_further, list_elem_of_further, list_elem_of_here.
Qed.

(** ** The completion signal of the units *)

Lemma signals_app (l1 l2 : list event) : signals (l1 ++ l2) = signals l1 ++ signals l2.
Proof. unfold signals. apply List.filter_app. Qed.

Lemma signals_console (l : list event) : forallb is_console l = true -> signals l = [].
Proof.
  induction l as [| e l IH]; [done |]. simpl.
  intros [He Hl]%andb_true_iff. destruct e; try discriminate. simpl. by apply IH.
Qed.

Section UnitFacts.

Variable self : BaseService.service.
Hypothesis Htools :
  BaseService.tools self = {| BaseService.has_TaskManager := true;
                              BaseService.has_TaskManager_resolve := true |}.

Lemma resolve_with_task_manager (exit : Js.value) :
  BaseService.resolve self exit =
    [Console Log ("Resolving service: " +:+ BaseService.name self);
     TMResolve (BaseService.name self) exit].
Proof. unfold BaseService.resolve. by rewrite Htools. Qed.

(** JsOptimizer guards against a missing or empty entry list. *)
Lemma JsOptimizer_init_without_entry
    (readFile : string -> JsOptimizer.read_result) (minify : string -> JsOptimizer.minified) :
  BaseService.entry self = None \/ BaseService.entry self = Some [] ->
  (JsOptimizer.init self readFile minify).2 = Async.Done /\
  signals (JsOptimizer.init self readFile minify).1
    = [TMResolve (BaseService.name self) Js.Undefined].
Proof.
  intros [Hentry | Hentry]; unfold JsOptimizer.init; rewrite Hentry;
    by rewrite resolve_with_task_manager.
Qed.

Lemma on_read_optimizes readFile minify path :
  optimizes readFile minify path ->
  (JsOptimizer.on_read self readFile minify path).2 = Async.Done /\
  signals (JsOptimizer.on_read self readFile minify path).1 = [].
Proof.
  intros [Hpath [data [text [Hread [Herr [Hcode Htext]]]]]].
  unfold JsOptimizer.on_read, JsOptimizer.write. rewrite Hread, Herr, Hcode. simpl.
  apply String.eqb_neq in Hpath, Htext. rewrite Hpath, Htext. done.
Qed.

Lemma in_order_all_done {A : Type} (f : A -> list event * Async.callback_end) (l : list A) :
  Forall (fun x => (f x).2 = Async.Done /\ signals (f x).1 = []) l ->
  Async.all_done (Async.in_order f l).2 = Async.Done /\
  signals (Async.in_order f l).1 = [].
Proof.
  induction 1 as [| x l [Hend Hsig] _ [IHend IHsig]]; [done |].
  simpl. destruct (f x) as [log e]. simpl in *. subst e. simpl.
  destruct (Async.in_order f l) as [log' es]. simpl in *.
  split; [| by rewrite signals_app, Hsig, IHsig].
  unfold Async.all_done in *. simpl.
  destruct (find Async.is_uncaught es); [done |].
  by destruct (forallb Async.is_done es).
Qed.

(** When every file of every group is optimized, [init] sends exactly
    one signal, the final [resolve()]. *)
Lemma JsOptimizer_init_all_optimized readFile minify (groups : list (list string)) :
  BaseService.entry self = Some groups ->
  Forall (Forall (optimizes readFile minify)) groups ->
  (JsOptimizer.init self readFile minify).2 = Async.Done /\
  signals (JsOptimizer.init self readFile minify).1
    = [TMResolve (BaseService.name self) Js.Undefined].
Proof.
  intros Hentry Hall. unfold JsOptimizer.init. rewrite Hentry.
  destruct groups as [| g gs]; [by rewrite resolve_with_task_manager |].
  remember (g :: gs) as groups eqn:Hgroups. clear Hgroups.
  assert (Hgroup : Forall (fun cwd =>
                             (JsOptimizer.optimizeCwd self readFile minify cwd).2 = Async.Done /\
                             signals (JsOptimizer.optimizeCwd self readFile minify cwd).1 = [])
                     groups).
  { eapply Forall_impl; [exact Hall |]. intros cwd Hcwd. unfold JsOptimizer.optimizeCwd.
    destruct (in_order_all_done (JsOptimizer.on_read self readFile minify) cwd) as [Hend Hsig].
    - eapply Forall_impl; [exact Hcwd |]. intros path. apply on_read_optimizes.
    - by destruct (Async.in_order _ cwd). }
  destruct (in_order_all_done _ _ Hgroup) as [Hend Hsig].
  destruct (Async.in_order _ groups) as [log es]. simpl in *. rewrite Hend. simpl.
  split; [done |].
  rewrite !signals_app, Hsig, resolve_with_task_manager.
  rewrite signals_console; [done |].
  apply forallb_forall. intros e He. apply in_map_iff in He as [p [<- _]]. done.
Qed.

(** StyleguideHelper sends its one signal when the entry list is
    defined and empty. *)
Lemma StyleguideHelper_init_empty_entry
    config_options existsSync writeFile resolve_directory story_destination :
  BaseService.entry self = Some [] ->
  StyleguideHelper.init self config_options existsSync writeFile
    resolve_directory story_destination
  = ([Console Log ("Resolving service: " +:+ BaseService.name self);
      TMResolve (BaseService.name self) Js.Undefined], Async.Fulfilled).
Proof.
  intros Hentry. unfold StyleguideHelper.init. rewrite Hentry. simpl.
  by rewrite resolve_with_task_manager.
Qed.

End UnitFacts.

(** C1. [JsOptimizer.init] on one entry group of two files that both
    fail to be read signals twice: each read callback calls [resolve()]
    by itself (and never calls [done], so the promise of [init] stays
    pending). *)
Theorem C1_js_optimizer_signals_twice
    (self : BaseService.service)
    (readFile : string -> JsOptimizer.read_result) (minify : string -> JsOptimizer.minified)
    (a b ea eb : string)
    (Htools : BaseService.tools self =
                {| BaseService.has_TaskManager := true;
                   BaseService.has_TaskManager_resolve := true |})
    (Hentry : BaseService.entry self = Some [[a; b]])
    (Ha : readFile a = JsOptimizer.ReadError ea)
    (Hb : readFile b = JsOptimizer.ReadError eb) :
  signals (JsOptimizer.init self readFile minify).1
    = [TMResolve (BaseService.name self) Js.Undefined;
       TMResolve (BaseService.name self) Js.Undefined] /\
  (JsOptimizer.init self readFile minify).2 = Async.NotDone.
Proof.
  unfold JsOptimizer.init, JsOptimizer.optimizeCwd. rewrite Hentry. simpl.
  unfold JsOptimizer.on_read. rewrite Ha, Hb. simpl.
  rewrite !resolve_with_task_manager by done. done.
Qed.

(** C7. [StyleguideHelper.init] on a unit whose entry list was never
    defined throws at [this.entry.map]: the promise of [init] is
    rejected and no signal is sent. *)
Theorem C7_styleguide_helper_without_entry_never_signals
    (self : BaseService.service)
    (config_options : option StyleguideHelper.options)
    (existsSync : string -> bool) (writeFile : string -> StyleguideHelper.write_result)
    (resolve_directory : string -> string) (story_destination : string -> string -> string)
    (Hentry : BaseService.entry self = None) :
  StyleguideHelper.init self config_options existsSync writeFile
    resolve_directory story_destination
  = ([], Async.Rejected "TypeError") /\
  signals (StyleguideHelper.init self config_options existsSync writeFile
             resolve_directory story_destination).1 = [].
Proof. unfold StyleguideHelper.init. by rewrite Hentry. Qed.

Lemma C1_js_optimizer_signals_twice_witness :
  let run := JsOptimizer.init unreadable_unit (fun _ => JsOptimizer.ReadError "ENOENT")
               (fun _ => {| JsOptimizer.code := None; JsOptimizer.error := None |}) in
  signals run.1 = [TMResolve "JsOptimizer" Js.Undefined; TMResolve "JsOptimizer" Js.Undefined] /\
  run.2 = Async.NotDone.
Proof.
  apply (C1_js_optimizer_signals_twice unreadable_unit (fun _ => JsOptimizer.ReadError "ENOENT")
           (fun _ => {| JsOptimizer.code := None; JsOptimizer.error := None |})
           "dist/main/a.js" "dist/main/b.js" "ENOENT" "ENOENT");
    reflexivity.
Defined.

Lemma C7_styleguide_helper_without_entry_never_signals_witness :
  let run := StyleguideHelper.init unit_without_entry None (fun _ => false)
               (fun _ => StyleguideHelper.WriteOk) (fun d => d) (fun _ source => source) in
  run = ([], Async.Rejected "TypeError") /\ signals run.1 = [].
Proof.
  apply (C7_styleguide_helper_without_entry_never_signals unit_without_entry None
           (fun _ => false) (fun _ => StyleguideHelper.WriteOk) (fun d => d)
           (fun _ source => source));
    reflexivity.
Defined.

(** ** The legacy driver *)

Section LegacyFacts.

Variable method : string -> option LegacyHarbor.awaited.

Lemma forEach_log_no_success (tasks : list string) (e : event) :
  e ∈ (LegacyHarbor.forEach method tasks).1 -> is_success e = false.
Proof.
  unfold LegacyHarbor.forEach. simpl. rewrite list_elem_of_In, in_flat_map.
  intros [run [Hrun He]]. apply in_map_iff in Hrun as [name [<- _]].
  unfold LegacyHarbor.dispatch in He.
  destruct (method name); simpl in He; intuition (subst; done).
Qed.

Lemma forEach_log_calls (tasks : list string) (name : string) (a : LegacyHarbor.awaited) :
  name ∈ tasks -> method name = Some a ->
  TaskCalled name ∈ (LegacyHarbor.forEach method tasks).1.
Proof.
  intros Hin Hm. unfold LegacyHarbor.forEach. simpl.
  rewrite list_elem_of_In, in_flat_map.
  exists (LegacyHarbor.dispatch method name). split.
  - apply in_map_iff. exists name. by rewrite <- list_elem_of_In.
  - unfold LegacyHarbor.dispatch. rewrite Hm. simpl. auto.
Qed.

Lemma complete_only_success (ks : list (string * LegacyHarbor.awaited)) (e : event) :
  e ∈ LegacyHarbor.complete ks -> is_success e = true.
Proof.
  unfold LegacyHarbor.complete. rewrite list_elem_of_In, in_flat_map.
  intros [t [_ He]]. apply in_flat_map in He as [k [_ He]].
  unfold LegacyHarbor.resume in He.
  destruct (LegacyHarbor.fulfils k.2); simpl in He; intuition (subst; done).
Qed.

(** In the run of [forEach] followed by the parked continuations, no
    call of a task comes after a completion. *)
Lemma calls_before_completions (tasks : list string) (i j : nat) (name msg : string) :
  let run := LegacyHarbor.forEach method tasks in
  (run.1 ++ LegacyHarbor.complete run.2) !! i = Some (TaskCalled name) ->
  (run.1 ++ LegacyHarbor.complete run.2) !! j = Some (Console Success msg) ->
  (i < j)%nat.
Proof.
  intros run Hi Hj.
  apply lookup_app_Some in Hi as [Hi | [_ Hi]].
  - apply lookup_app_Some in Hj as [Hj | [Hj _]].
    + apply list_elem_of_lookup_2, forEach_log_no_success in Hj. discriminate.
    + apply lookup_lt_Some in Hi. lia.
  - apply list_elem_of_lookup_2, complete_only_success in Hi. discriminate.
Qed.

End LegacyFacts.

Lemma legacy_init_run (method : string -> option LegacyHarbor.awaited) (task : string) :
  task <> "" ->
  LegacyHarbor.init method (Some task) =
    (LegacyHarbor.forEach method (List.map LegacyHarbor.trim (LegacyHarbor.split task))).1
    ++ LegacyHarbor.complete
         (LegacyHarbor.forEach method (List.map LegacyHarbor.trim (LegacyHarbor.split task))).2.
Proof.
  intros Htask. unfold LegacyHarbor.init. simpl.
  apply String.eqb_neq in Htask. by rewrite Htask.
Qed.

Lemma lookup_after {A : Type} (l l1 l2 : list A) (x : A) :
  l = l1 ++ x :: l2 -> l !! length l1 = Some x.
Proof. intros ->. by apply list_lookup_middle. Qed.

Lemma flat_map_two {A B : Type} (f : A -> list B) (x y : A) (l1 l2 l3 : list A) :
  flat_map f (l1 ++ x :: l2 ++ y :: l3) =
    flat_map f l1 ++ f x ++ flat_map f l2 ++ f y ++ flat_map f l3.
Proof. rewrite flat_map_app. simpl. by rewrite flat_map_app. Qed.

(** Run one after the other, the completion of a task would come before
    the call of every later task. *)
Lemma in_sequence_waits (method : string -> option LegacyHarbor.awaited)
    (x y : string) (a b : LegacyHarbor.awaited) (l1 l2 l3 : list string) :
  method x = Some a -> LegacyHarbor.fulfils a = true -> method y = Some b ->
  exists i j msg,
    LegacyHarbor.in_sequence method (l1 ++ x :: l2 ++ y :: l3) !! i = Some (Console Success msg) /\
    LegacyHarbor.in_sequence method (l1 ++ x :: l2 ++ y :: l3) !! j = Some (TaskCalled y) /\
    (i < j)%nat.
Proof.
  intros Hx Hfulfils Hy. unfold LegacyHarbor.in_sequence.
  set (F := fun name => let '(log, k) := LegacyHarbor.dispatch method name in
                        log ++ from_option LegacyHarbor.resume [] k).
  assert (HFx : F x = [Console Info ("Running task: " +:+ x); TaskCalled x;
                       Console Success ("Done - " +:+ x)]).
  { unfold F, LegacyHarbor.dispatch, LegacyHarbor.resume. rewrite Hx. simpl.
    by rewrite Hfulfils. }
  assert (HFy : F y = Console Info ("Running task: " +:+ y) :: TaskCalled y
                        :: LegacyHarbor.resume (y, b)).
  { unfold F, LegacyHarbor.dispatch. by rewrite Hy. }
  rewrite (flat_map_two F), HFx, HFy.
  set (P := flat_map F l1). set (Q := flat_map F l2). set (T := flat_map F l3).
  exists (length (P ++ [Console Info ("Running task: " +:+ x); TaskCalled x])),
         (length (P ++ [Console Info ("Running task: " +:+ x); TaskCalled x;
                        Console Success ("Done - " +:+ x)]
                    ++ Q ++ [Console Info ("Running task: " +:+ y)])),
         ("Done - " +:+ x).
  split; [| split].
  - apply lookup_after with
      (l2 := Q ++ (Console Info ("Running task: " +:+ y) :: TaskCalled y
                     :: LegacyHarbor.resume (y, b)) ++ T).
    rewrite <- app_assoc. reflexivity.
  - apply lookup_after with (l2 := LegacyHarbor.resume (y, b) ++ T).
    rewrite <- !app_assoc. reflexivity.
  - rewrite !length_app. simpl. lia.
Qed.

(** C8. Given a non-empty task argument, [init] calls the handler of
    every task that names a method; no handler is called after the
    completion of any task has been logged, so no call waits for an
    earlier task to finish; and as soon as a task that completes is
    followed by another one, the run differs from running the tasks one
    after the other. *)
Theorem C8_legacy_init_dispatches_without_waiting
    (method : string -> option LegacyHarbor.awaited) (task : string)
    (Htask : task <> "") :
  let tasks := List.map LegacyHarbor.trim (LegacyHarbor.split task) in
  let run := LegacyHarbor.init method (Some task) in
  (forall name a, name ∈ tasks -> method name = Some a -> TaskCalled name ∈ run) /\
  (forall i j name msg,
      run !! i = Some (TaskCalled name) ->
      run !! j = Some (Console Success msg) ->
      (i < j)%nat) /\
  (forall x y a b l1 l2 l3,
      tasks = l1 ++ x :: l2 ++ y :: l3 ->
      method x = Some a -> LegacyHarbor.fulfils a = true -> method y = Some b ->
      run <> LegacyHarbor.in_sequence method tasks).
Proof.
  intros tasks run. subst run. rewrite (legacy_init_run method task Htask). fold tasks.
  assert (Horder : forall i j name msg,
             ((LegacyHarbor.forEach method tasks).1
                ++ LegacyHarbor.complete (LegacyHarbor.forEach method tasks).2) !! i
               = Some (TaskCalled name) ->
             ((LegacyHarbor.forEach method tasks).1
                ++ LegacyHarbor.complete (LegacyHarbor.forEach method tasks).2) !! j
               = Some (Console Success msg) ->
             (i < j)%nat).
  { intros i j name msg. apply calls_before_completions. }
  split; [| split].
  - intros name a Hin Hm. apply elem_of_app. left. by eapply forEach_log_calls.
  - exact Horder.
  - intros x y a b l1 l2 l3 Hsplit Hx Hfulfils Hy Heq.
    destruct (in_sequence_waits method x y a b l1 l2 l3 Hx Hfulfils Hy)
      as [i [j [msg [Hi [Hj Hlt]]]]].
    rewrite <- Hsplit, <- Heq in Hi, Hj.
    pose proof (Horder j i y msg Hj Hi). lia.
Qed.

Lemma C8_legacy_init_dispatches_without_waiting_witness :
  let tasks := ["stylesheets"; "clean"] in
  let run := LegacyHarbor.init two_methods (Some "stylesheets, clean") in
  (forall name a, name ∈ tasks -> two_methods name = Some a -> TaskCalled name ∈ run) /\
  (forall i j name msg,
      run !! i = Some (TaskCalled name) ->
      run !! j = Some (Console Success msg) ->
      (i < j)%nat) /\
  (forall x y a b l1 l2 l3,
      tasks = l1 ++ x :: l2 ++ y :: l3 ->
      two_methods x = Some a -> LegacyHarbor.fulfils a = true -> two_methods y = Some b ->
      run <> LegacyHarbor.in_sequence two_methods tasks).
Proof.
  apply (C8_legacy_init_dispatches_without_waiting two_methods "stylesheets, clean").
  discriminate.
Defined.

Example legacy_run_of_two_tasks :
  LegacyHarbor.init two_methods (Some "stylesheets, clean") =
    [Console Info "Running task: stylesheets"; TaskCalled "stylesheets";
     Console Info "Running task: clean"; TaskCalled "clean";
     Console Success "Done - clean"; Console Success "Done - stylesheets"].
Proof. reflexivity. Qed.

(** ** The environment defaults *)

Section DefineFacts.

Variable kept : Js.value -> Js.value.

Lemma define_option_own (parsed : gmap string Js.value) (k : string) (d : Js.value) :
  Environment.define_option kept parsed (k, d) !! k =
    Some (coerced kept (default (kept (Environment.inherited d)) (parsed !! k))).
Proof.
  unfold Environment.define_option, coerced. cbn [fst snd].
  assert (Hstep : forall (p : gmap string Js.value) (v : Js.value),
             p !! k = Some v ->
             (let p2 := if Environment.is_word ["false"; "0"] (p !! k)
                        then <[k := kept (Js.Bool false)]> p else p in
              if Environment.is_word ["true"; "1"] (p2 !! k)
              then <[k := kept (Js.Bool true)]> p2 else p2) !! k
             = Some (let v2 := if Environment.is_word ["false"; "0"] (Some v)
                               then kept (Js.Bool false) else v in
                     if Environment.is_word ["true"; "1"] (Some v2)
                     then kept (Js.Bool true) else v2)).
  { intros p v Hp. cbv zeta. rewrite Hp.
    destruct (Environment.is_word ["false"; "0"] (Some v)).
    - rewrite lookup_insert_eq.
      destruct (Environment.is_word ["true"; "1"] (Some (kept (Js.Bool false))));
        apply lookup_insert_eq.
    - rewrite Hp. destruct (Environment.is_word ["true"; "1"] (Some v)); [| done].
      apply lookup_insert_eq. }
  destruct (parsed !! k) as [v |] eqn:Hk; cbn [default from_option id].
  - by apply Hstep.
  - apply Hstep. apply lookup_insert_eq.
Qed.

Lemma define_option_other (parsed : gmap string Js.value) (o : string * Js.value)
    (k : string) :
  o.1 <> k -> Environment.define_option kept parsed o !! k = parsed !! k.
Proof.
  intros Hne. unfold Environment.define_option.
  repeat match goal with
         | |- context [match ?x with _ => _ end] => destruct x
         end;
    by rewrite ?lookup_insert_ne.
Qed.

Lemma define_options_other (ds : list (string * Js.value)) (parsed : gmap string Js.value)
    (k : string) :
  k ∉ List.map fst ds ->
  foldl (Environment.define_option kept) parsed ds !! k = parsed !! k.
Proof.
  revert parsed. induction ds as [| o ds IH]; intros parsed Hk; [done |].
  simpl in *. apply not_elem_of_cons in Hk as [Hne Hk].
  rewrite IH by done. by apply define_option_other.
Qed.

Lemma define_options_own (ds : list (string * Js.value)) (parsed : gmap string Js.value)
    (k : string) (d : Js.value) :
  NoDup (List.map fst ds) -> (k, d) ∈ ds ->
  foldl (Environment.define_option kept) parsed ds !! k =
    Some (coerced kept (default (kept (Environment.inherited d)) (parsed !! k))).
Proof.
  revert parsed. induction ds as [| o ds IH]; intros parsed Hnodup Hin.
  - by apply elem_of_nil in Hin.
  - simpl in *. apply NoDup_cons in Hnodup as [Hfresh Hnodup].
    apply elem_of_cons in Hin as [<- | Hin].
    + rewrite define_options_other by done. apply define_option_own.
    + rewrite IH by done. rewrite define_option_other; [done |].
      intros Heq. apply Hfresh. rewrite Heq.
      change k with (k, d).1. apply list_elem_of_In, in_map. by apply list_elem_of_In.
Qed.

End DefineFacts.

Lemma defaults_nodup : NoDup (List.map fst Environment.defaults).
Proof. apply (bool_decide_unpack _). by vm_compute. Qed.

(** The value [define] leaves under an option that has a default. *)
Lemma define_on_lookup (kept : Js.value -> Js.value) (parsed : gmap string Js.value)
    (k : string) (d : Js.value) :
  (k, d) ∈ Environment.defaults ->
  Environment.define_on kept parsed !! k =
    Some (coerced kept (default (kept (Environment.inherited d)) (parsed !! k))).
Proof. apply define_options_own, defaults_nodup. Qed.

(** Without a THEME_ENVIRONMENT variable, [define] yields
    THEME_ENVIRONMENT = 'production', and with that environment
    [validateResult] throws on every result that has exceptions. *)
Lemma define_defaults_to_production (process_env : gmap string Js.value) :
  process_env !! "THEME_ENVIRONMENT" = None ->
  Environment.define process_env !! "THEME_ENVIRONMENT" = Some (Js.Str "production") /\
  forall results type,
    Coordinator.nonempty (exceptions results) = true ->
    (exists msg,
        (Harbor.validateResult (Environment.THEME_ENVIRONMENT (Environment.define process_env))
           results type).2 = Thrown msg) /\
    (exists msg,
        (HarborStatic.validateResult
           (Environment.THEME_ENVIRONMENT (Environment.define process_env)) results).2
        = Thrown msg).
Proof.
  intros Habsent.
  assert (Henv : Environment.define process_env !! "THEME_ENVIRONMENT"
                 = Some (Js.Str "production")).
  { unfold Environment.define.
    rewrite (define_on_lookup _ process_env "THEME_ENVIRONMENT" (Js.Str "production")).
    - by rewrite Habsent.
    - do 2 apply list_elem_of_further. apply list_elem_of_here. }
  split; [done |]. intros results type Hex.
  unfold Environment.THEME_ENVIRONMENT. rewrite Henv. simpl.
  destruct (validateResult_throws (Js.Str "production") results type Hex eq_refl) as [m ->].
  destruct (validateResult_static_throws (Js.Str "production") results Hex eq_refl) as [m' ->].
  simpl. eauto.
Qed.

(** On an ordinary object the loop of [define] turns the strings
    'false' and '0' into [false], 'true' and '1' into [true], for every
    option that has a default. *)
Lemma define_on_object_coerces (parsed : gmap string Js.value) (option s : string) :
  option ∈ List.map fst Environment.defaults ->
  parsed !! option = Some (Js.Str s) ->
  (s = "false" \/ s = "0" ->
   Environment.define_on Environment.kept_by_object parsed !! option = Some (Js.Bool false)) /\
  (s = "true" \/ s = "1" ->
   Environment.define_on Environment.kept_by_object parsed !! option = Some (Js.Bool true)).
Proof.
  intros Hoption Henv.
  apply list_elem_of_In, in_map_iff in Hoption as [[k d] [Hk Hin]]. simpl in Hk. subst k.
  apply list_elem_of_In in Hin.
  rewrite (define_on_lookup _ parsed option d Hin), Henv. simpl.
  split; intros [-> | ->]; reflexivity.
Qed.

(** On [process.env] the assigned boolean is kept as its string: the
    option comes out as 'false' or 'true'. *)
Lemma define_keeps_strings (process_env : gmap string Js.value) (option s : string) :
  option ∈ List.map fst Environment.defaults ->
  process_env !! option = Some (Js.Str s) ->
  (s = "false" \/ s = "0" ->
   Environment.define process_env !! option = Some (Js.Str "false")) /\
  (s = "true" \/ s = "1" ->
   Environment.define process_env !! option = Some (Js.Str "true")).
Proof.
  intros Hoption Henv.
  apply list_elem_of_In, in_map_iff in Hoption as [[k d] [Hk Hin]]. simpl in Hk. subst k.
  apply list_elem_of_In in Hin. unfold Environment.define.
  rewrite (define_on_lookup _ process_env option d Hin), Henv. simpl.
  split; intros [-> | ->]; reflexivity.
Qed.

(** C9. With THEME_DEBUG=0 in the process environment, [define] returns
    THEME_DEBUG as the string 'false', which is truthy, where the boolean
    [false] is meant; an option left to its default [false], as
    THEME_AS_CLI here, comes out as the string 'false' too. The default
    of THEME_ENVIRONMENT is 'production' all the same. *)
Theorem C9_define_leaves_strings_for_booleans :
  let process_env : gmap string Js.value := {[ "THEME_DEBUG" := Js.Str "0" ]} in
  Environment.define process_env !! "THEME_DEBUG" = Some (Js.Str "false") /\
  Js.truthy (Js.Str "false") = true /\
  Environment.define process_env !! "THEME_AS_CLI" = Some (Js.Str "false") /\
  Environment.define process_env !! "THEME_ENVIRONMENT" = Some (Js.Str "production") /\
  Environment.define_on Environment.kept_by_object process_env !! "THEME_DEBUG"
    = Some (Js.Bool false).
Proof.
  intros process_env.
  split; [| split; [reflexivity | split; [| split]]].
  - unfold Environment.define.
    rewrite (define_on_lookup _ _ "THEME_DEBUG" (Js.Bool false));
      [done | apply list_elem_of_further, list_elem_of_here].
  - unfold Environment.define.
    rewrite (define_on_lookup _ _ "THEME_AS_CLI" (Js.Bool false));
      [done | do 6 apply list_elem_of_further; apply list_elem_of_here].
  - by apply define_defaults_to_production.
  - rewrite (define_on_lookup _ _ "THEME_DEBUG" (Js.Bool false));
      [done | apply list_elem_of_further, list_elem_of_here].
Qed.

(** * Further properties of the embedded code *)

(** ** The environment gate, from the options a unit is built with *)

(** X1. A unit that is built without options, or whose
    [acceptedEnvironments] is falsy or an empty array, subscribes its
    [init] whatever the environment of the run is. *)
Theorem ungated_unit_subscribes_init
    (s : BaseService.service) (o : BaseService.raw_options) (hk : list Js.value)
    (Htm : BaseService.has_TaskManager (BaseService.tools s) = true)
    (Hopts : BaseService.opts s = Some (BaseService.defineOptions o))
    (Hopen : o = None \/ exists v, o = Some v /\ (Js.truthy v = false \/ v = Js.Arr [])) :
  BaseService.subscribe s hk = [TMSubscribe (BaseService.name s) hk HInit].
Proof.
  unfold BaseService.subscribe, BaseService.initIfAccepted. rewrite Htm, Hopts.
  destruct Hopen as [-> | [v [-> [Hv | ->]]]]; simpl; [done | | done].
  by rewrite Hv.
Qed.

Lemma ungated_unit_subscribes_init_witness :
  BaseService.subscribe (unit_gated_to (Js.Arr []) (Js.Str "staging")) [Js.Str "Watcher"]
  = [TMSubscribe "Watcher" [Js.Str "Watcher"] HInit].
Proof.
  apply (ungated_unit_subscribes_init (unit_gated_to (Js.Arr []) (Js.Str "staging"))
           (Some (Js.Arr [])) [Js.Str "Watcher"]);
    [reflexivity | reflexivity | right; exists (Js.Arr []); auto].
Defined.

Lemma includes_value_strings (accepted : list string) (v : Js.value) :
  Js.includes_value (List.map Js.Str accepted) v = true <->
  exists a, a ∈ accepted /\ v = Js.Str a.
Proof.
  unfold Js.includes_value. rewrite existsb_exists. split.
  - intros [x [Hin Heq]]. apply in_map_iff in Hin as [a [<- Hin]].
    exists a. split; [by apply list_elem_of_In |].
    destruct v; try discriminate. simpl in Heq. by apply String.eqb_eq in Heq as ->.
  - intros [a [Hin ->]]. exists (Js.Str a). split.
    + apply in_map. by apply list_elem_of_In.
    + simpl. apply String.eqb_refl.
Qed.

(** X2. A unit gated to a non-empty list of environment names is
    accepted exactly when the environment of the run is the string of
    one of these names; an environment that is not a string is never
    accepted. *)
Theorem gated_unit_accepted_iff_listed
    (s : BaseService.service) (o : BaseService.raw_options) (accepted : list string)
    (Hopts : BaseService.opts s = Some (BaseService.defineOptions o))
    (Hgate : BaseService.defineAcceptedEnvironments o = Some (List.map Js.Str accepted))
    (Hne : accepted <> []) :
  BaseService.initIfAccepted s = true <->
  exists a, a ∈ accepted /\ BaseService.THEME_ENVIRONMENT (BaseService.env s) = Js.Str a.
Proof.
  unfold BaseService.initIfAccepted. rewrite Hopts. unfold BaseService.defineOptions. simpl.
  rewrite Hgate. destruct accepted as [| a0 rest]; [done |].
  rewrite <- includes_value_strings.
  change (Js.Str a0 :: List.map Js.Str rest) with (List.map Js.Str (a0 :: rest)).
  by destruct (Js.includes_value _ _).
Qed.

Lemma gated_unit_accepted_iff_listed_witness :
  BaseService.initIfAccepted (unit_gated_to (Js.Str "development") (Js.Str "development")) = true <->
  exists a, a ∈ ["development"] /\ Js.Str "development" = Js.Str a.
Proof.
  apply (gated_unit_accepted_iff_listed
           (unit_gated_to (Js.Str "development") (Js.Str "development"))
           (Some (Js.Str "development")) ["development"]);
    [reflexivity | reflexivity | discriminate].
Defined.

(** ** The entry lists, file by file *)

Lemma concat_without_empty {A : Type} (ls : list (list A)) :
  List.concat (List.filter (fun g => negb (Nat.eqb (List.length g) 0)) ls) = List.concat ls.
Proof.
  induction ls as [| g ls IH]; [done |]. simpl.
  destruct g as [| x g]; simpl; [done | by rewrite IH].
Qed.

Lemma concat_filter_each {A : Type} (p : A -> bool) (ls : list (list A)) :
  List.concat (List.map (List.filter p) ls) = List.filter p (List.concat ls).
Proof.
  induction ls as [| g ls IH]; [done |]. simpl. by rewrite List.filter_app, IH.
Qed.

Lemma flat_map_skip_log (stat_size : string -> Z) (l : list string) :
  List.flat_map (BaseService.skip_log stat_size) l =
  List.map (fun e => Console Log ("Skipping empty entry: " +:+ e))
    (List.filter (fun e => (stat_size e =? 0)%Z) l).
Proof.
  induction l as [| e l IH]; [done |]. simpl. unfold BaseService.skip_log at 1.
  destruct (stat_size e =? 0)%Z; simpl; by rewrite IH.
Qed.

Lemma flat_map_flat_map_concat {A B : Type} (f : A -> list B) (ls : list (list A)) :
  List.flat_map (List.flat_map f) ls = List.flat_map f (List.concat ls).
Proof.
  induction ls as [| g ls IH]; [done |]. simpl. by rewrite flat_map_app, IH.
Qed.

(** X3. With an entry configuration, [defineEntry] loses and reorders
    nothing: read group after group, [this.entry] lists exactly the
    matched files of a size above zero (and a non-empty name), in the
    order the patterns are configured and glob returns them; and it logs
    one line for every matched file of size zero, in the same order, and
    nothing else. *)
Theorem defineEntry_keeps_and_logs_in_order
    (join : string -> string -> string) (sync : string -> list string)
    (stat_size : string -> Z) (s : BaseService.service) (useDestination : bool)
    (entries : list (string * string))
    (Hentries : BaseService.entry_patterns (BaseService.cfg s) = Some entries)
    (Hne : entries <> []) :
  let run := BaseService.defineEntry join sync stat_size s useDestination in
  let matched :=
    List.flat_map (fun ne => BaseService.resolve_pattern join sync s useDestination ne.2)
      entries in
  (exists groups,
      BaseService.entry run.2 = Some groups /\
      List.concat groups = List.filter (BaseService.keep_entry stat_size) matched) /\
  run.1 = List.map (fun e => Console Log ("Skipping empty entry: " +:+ e))
            (List.filter (fun e => (stat_size e =? 0)%Z) matched).
Proof.
  intros run matched. subst run matched. split.
  - rewrite defineEntry_entry, Hentries. destruct entries as [| ne0 rest]; [done |].
    eexists. split; [reflexivity |].
    by rewrite concat_without_empty, concat_filter_each, flat_map_concat_map.
  - unfold BaseService.defineEntry. rewrite Hentries.
    destruct entries as [| ne0 rest]; [done |]. cbn [fst].
    by rewrite flat_map_flat_map_concat, flat_map_skip_log, flat_map_concat_map.
Qed.

Lemma defineEntry_keeps_and_logs_in_order_witness :
  let s := unit_gated_to (Js.Str "development") (Js.Str "development") in
  let run := BaseService.defineEntry sample_join sample_sync sample_size s false in
  let matched :=
    List.flat_map (fun ne => BaseService.resolve_pattern sample_join sample_sync s false ne.2)
      [("main", "main/*.js"); ("modules", "modules/*.js")] in
  (exists groups,
      BaseService.entry run.2 = Some groups /\
      List.concat groups = List.filter (BaseService.keep_entry sample_size) matched) /\
  run.1 = List.map (fun e => Console Log ("Skipping empty entry: " +:+ e))
            (List.filter (fun e => (sample_size e =? 0)%Z) matched).
Proof.
  apply (defineEntry_keeps_and_logs_in_order sample_join sample_sync sample_size
           (unit_gated_to (Js.Str "development") (Js.Str "development")) false
           [("main", "main/*.js"); ("modules", "modules/*.js")]);
    [reflexivity | discriminate].
Defined.

Example defineEntry_on_sample :
  let run := BaseService.defineEntry sample_join sample_sync sample_size
               (unit_gated_to (Js.Str "development") (Js.Str "development")) false in
  BaseService.entry run.2 = Some [["src/main/a.js"]] /\
  run.1 = [Console Log "Skipping empty entry: src/main/b.js";
           Console Log "Skipping empty entry: src/modules/c.js"].
Proof. split; reflexivity. Qed.

(** X4. [defineEntry] is idempotent: on the same file system, a second
    call logs the same lines and leaves the unit as the first call left
    it. *)
Theorem defineEntry_idempotent
    (join : string -> string -> string) (sync : string -> list string)
    (stat_size : string -> Z) (s : BaseService.service) (useDestination : bool) :
  let once := BaseService.defineEntry join sync stat_size s useDestination in
  BaseService.defineEntry join sync stat_size once.2 useDestination = once.
Proof.
  unfold BaseService.defineEntry.
  destruct (BaseService.entry_patterns (BaseService.cfg s)) as [[| ne0 rest] |] eqn:Hcfg;
    simpl; rewrite ?Hcfg; reflexivity.
Qed.

(** ** The tasks of a run *)

(** X5. A task given on the command line is the only task of the run,
    and the custom arguments are then not looked at. Without one, the
    tasks are the base names of the worker hooks that are a key of the
    custom arguments, and nothing else. *)
Theorem define_tasks_from_task_or_hooks
    (task : Js.value) (customArgs : option (list string)) (workerHooks : list string) :
  (Js.truthy task = true ->
   Coordinator.define_tasks task customArgs workerHooks = Some [task]) /\
  (Js.truthy task = false ->
   forall keys, customArgs = Some keys ->
     exists tasks,
       Coordinator.define_tasks task customArgs workerHooks = Some tasks /\
       forall t, t ∈ tasks <->
                 exists h, h ∈ workerHooks /\ t = Js.Str (Js.before_sep h)
                           /\ Js.before_sep h ∈ keys).
Proof.
  unfold Coordinator.define_tasks, Coordinator.initial_tasks. split.
  - by intros ->.
  - intros -> keys ->. simpl. eexists. split; [reflexivity |].
    intros t. rewrite list_elem_of_In, in_map_iff. split.
    + intros [h [<- Hin]]. apply filter_In in Hin as [Hin Hkey].
      exists h. rewrite list_elem_of_In. by rewrite <- existsb_eqb_elem_of.
    + intros [h [Hin [-> Hkey]]]. exists h. split; [done |].
      apply filter_In. rewrite <- list_elem_of_In. by rewrite existsb_eqb_elem_of.
Qed.

Lemma prefix_cons (a b : ascii) (s1 s2 : string) :
  String.prefix (String a s1) (String b s2) =
    if Ascii.ascii_dec a b then String.prefix s1 s2 else false.
Proof. reflexivity. Qed.

Lemma prefix_colons (c : ascii) (s : string) :
  String.prefix "::" (String c s) = true <->
  c = ":"%char /\ exists rest, s = String ":" rest.
Proof.
  rewrite prefix_cons. destruct (Ascii.ascii_dec ":" c) as [<- | Hc].
  - destruct s as [| d rest].
    + split; [discriminate | intros [_ [rest Hrest]]; discriminate].
    + rewrite prefix_cons. destruct (Ascii.ascii_dec ":" d) as [<- | Hd].
      * split; [intros _; split; [done | by exists rest] | intros _; by destruct rest].
      * split; [discriminate |]. intros [_ [rest' Hrest]]. congruence.
  - split; [discriminate | intros [-> _]; done].
Qed.

Lemma before_sep_cons (c : ascii) (s : string) :
  Js.before_sep (String c s) =
    if String.prefix "::" (String c s) then EmptyString else String c (Js.before_sep s).
Proof. reflexivity. Qed.

Lemma before_sep_head (s rest : string) :
  Js.before_sep s = String ":" rest -> exists rest', s = String ":" rest'.
Proof.
  destruct s as [| c s']; [discriminate |]. rewrite before_sep_cons.
  destruct (String.prefix "::" (String c s')); [discriminate |].
  intros [= -> _]. eauto.
Qed.

(** X6. The base name of a flag or hook, [s.split('::')[0]], is a
    prefix of [s] that holds no "::" any more: taking the base name
    twice is taking it once. A text without a colon is its own base
    name. *)
Theorem before_sep_prefix_idempotent (s : string) :
  String.prefix (Js.before_sep s) s = true /\
  Js.before_sep (Js.before_sep s) = Js.before_sep s /\
  ((forall c, c ∈ list_ascii_of_string s -> c <> ":"%char) -> Js.before_sep s = s).
Proof.
  split; [| split].
  - induction s as [| c s IH]; [done |]. rewrite before_sep_cons.
    destruct (String.prefix "::" (String c s)); [done |].
    rewrite prefix_cons, IH. by destruct (Ascii.ascii_dec c c).
  - induction s as [| c s IH]; [done |]. rewrite before_sep_cons.
    destruct (String.prefix "::" (String c s)) eqn:Hp; [done |].
    rewrite before_sep_cons.
    destruct (String.prefix "::" (String c (Js.before_sep s))) eqn:Hq.
    + apply prefix_colons in Hq as [-> [rest Hrest]].
      apply before_sep_head in Hrest as [rest' ->].
      assert (Hpp : String.prefix "::" (String ":" (String ":" rest')) = true)
        by (apply prefix_colons; eauto).
      congruence.
    + by rewrite IH.
  - induction s as [| c s IH]; [done |]. intros Hfree. rewrite before_sep_cons.
    destruct (String.prefix "::" (String c s)) eqn:Hp.
    + apply prefix_colons in Hp as [-> _]. exfalso.
      apply (Hfree ":"%char); [apply list_elem_of_here | done].
    + rewrite IH; [done |]. intros d Hd. apply Hfree. by apply list_elem_of_further.
Qed.

(** ** When a run fails *)







(** X8. [mount] subscribes the units in the order they are given, each
    one once, and stops at the first unit that has no configuration:
    the units it subscribed are those before that one, and it returns
    exactly when every unit is configured. *)
Theorem mount_subscribes_configured_prefix
    (instances : list string) (config : gmap string Js.value) :
  let run := Coordinator.mount instances config in
  exists rest,
    instances = List.map fst run.1 ++ rest /\
    Forall (fun call => exists hook, config !! call.1 = Some hook
                                     /\ call.2 = Coordinator.mount_hook call.1 hook) run.1 /\
    match run.2 with
    | Returned => rest = []
    | Thrown _ => exists name rest', rest = name :: rest' /\ config !! name = None
    end.
Proof.
  induction instances as [| name instances IH]; simpl.
  - exists []. by repeat split.
  - destruct (config !! name) as [hook |] eqn:Hcfg.
    + destruct IH as [rest [Heq [Hall Hrest]]].
      destruct (Coordinator.mount instances config) as [calls o]. simpl in *.
      exists rest. split; [by rewrite <- Heq |]. split; [| done].
      constructor; [| done]. simpl. eauto.
    + exists (name :: instances). simpl. repeat split; [constructor |]. eauto.
Qed.




(** X10. [hasBuild] looks for a property [destination], which
    [define] never sets: unless the process environment itself has a
    variable of that name, [hasBuild] on the result of [define] is false
    whatever the file system holds, so that a run of the static revision
    without tasks always warns that the build folder is empty. *)
Theorem hasBuild_of_defined_environment_is_false
    (resolve : string -> string) (existsSync : string -> bool)
    (readdirSync : string -> list string) (process_env : gmap string Js.value)
    (Hnone : process_env !! "destination" = None) :
  let found := Environment.hasBuild resolve existsSync readdirSync
                 (Some (Environment.define process_env)) in
  found = Some false /\
  forall THEME_ENVIRONMENT publishWorkers publishPlugins workerHooks plugin_hooks a,
    Coordinator.define_tasks (task a) (customArgs a) workerHooks = Some [] ->
    Console Warning "The defined build folder is empty!"
      ∈ (HarborStatic.init THEME_ENVIRONMENT publishWorkers publishPlugins workerHooks
           plugin_hooks (default false found) a).1.
Proof.
  assert (Hfound : Environment.hasBuild resolve existsSync readdirSync
                     (Some (Environment.define process_env)) = Some false).
  { unfold Environment.hasBuild, Environment.define, Environment.define_on.
    rewrite define_options_other; [by rewrite Hnone |].
    apply (bool_decide_unpack _). by vm_compute. }
  intros found. subst found. rewrite Hfound. split; [done |].
  intros env pw pp wh ph a Htasks. unfold HarborStatic.init. rewrite Htasks. simpl.
  destruct (HarborStatic.plugins_cycle env pp ph a []) as [log o]. simpl.
  apply list_elem_of_further, list_elem_of_here.
Qed.

Lemma hasBuild_of_defined_environment_is_false_witness :
  let found := Environment.hasBuild (fun d => d) (fun _ => true) (fun _ => ["index.html"])
                 (Some (Environment.define {[ "THEME_DIST" := Js.Str "dist" ]})) in
  found = Some false /\
  forall THEME_ENVIRONMENT publishWorkers publishPlugins workerHooks plugin_hooks a,
    Coordinator.define_tasks (task a) (customArgs a) workerHooks = Some [] ->
    Console Warning "The defined build folder is empty!"
      ∈ (HarborStatic.init THEME_ENVIRONMENT publishWorkers publishPlugins workerHooks
           plugin_hooks (default false found) a).1.
Proof.
  apply (hasBuild_of_defined_environment_is_false (fun d => d) (fun _ => true)
           (fun _ => ["index.html"]) {[ "THEME_DIST" := Js.Str "dist" ]}).
  reflexivity.
Defined.

(** ** What JsOptimizer reports *)

Lemma in_order_no_crash {A : Type} (f : A -> list event * Async.callback_end) (l : list A) :
  Forall (fun x => Async.is_uncaught (f x).2 = false) l ->
  Async.in_order f l = (List.flat_map (fun x => (f x).1) l, List.map (fun x => (f x).2) l).
Proof.
  induction 1 as [| x l Hx _ IH]; [done |]. simpl.
  destruct (f x) as [log e]. simpl in *. rewrite Hx, IH. done.
Qed.


Lemma all_done_no_crash (es : list Async.callback_end) :
  Forall (fun e => Async.is_uncaught e = false) es ->
  Async.all_done es = if forallb Async.is_done es then Async.Done else Async.NotDone.
Proof.
  intros Hall. unfold Async.all_done.
  assert (Hfind : find Async.is_uncaught es = None).
  { induction Hall as [| e es He _ IH]; [done |]. simpl. by rewrite He. }
  by rewrite Hfind.
Qed.

Lemma signals_repeat (e : event) (n : nat) :
  is_signal e = true -> signals (repeat e n) = repeat e n.
Proof. intros He. induction n as [| n IH]; [done |]. simpl. by rewrite He, IH. Qed.

Section ReportFacts.

Variable self : BaseService.service.
Hypothesis Htools :
  BaseService.tools self = {| BaseService.has_TaskManager := true;
                              BaseService.has_TaskManager_resolve := true |}.
Variable readFile : string -> JsOptimizer.read_result.
Variable minify : string -> JsOptimizer.minified.

Local Abbreviation success := (TMResolve (BaseService.name self) Js.Undefined).
Local Abbreviation unreadable_in l := (List.length (List.filter (is_unreadable readFile) l)).

Lemma on_read_unreadable (path : string) :
  is_unreadable readFile path = true ->
  (JsOptimizer.on_read self readFile minify path).2 = Async.NotDone /\
  signals (JsOptimizer.on_read self readFile minify path).1 = [success].
Proof.
  unfold is_unreadable, JsOptimizer.on_read. destruct (readFile path); [| discriminate].
  intros _. by rewrite (resolve_with_task_manager self Htools).
Qed.

Lemma optimizes_readable (path : string) :
  optimizes readFile minify path -> is_unreadable readFile path = false.
Proof.
  intros [_ [data [text [Hread _]]]]. unfold is_unreadable. by rewrite Hread.
Qed.

(** The callbacks of a list of files each of which is unreadable or
    optimized: one success signal per unreadable file, and all done
    exactly when none is unreadable. *)
Lemma on_read_list (l : list string) :
  Forall (fun p => is_unreadable readFile p = true \/ optimizes readFile minify p) l ->
  let run := Async.in_order (JsOptimizer.on_read self readFile minify) l in
  signals run.1 = repeat success (unreadable_in l) /\
  Async.all_done run.2 = if Nat.eqb (unreadable_in l) 0 then Async.Done else Async.NotDone.
Proof.
  intros Hall. cbv zeta. rewrite in_order_no_crash.
  - cbn [fst snd]. rewrite all_done_no_crash.
    + induction Hall as [| p l Hp _ [IHs IHe]]; [done |].
      simpl. rewrite signals_app, IHs.
      destruct Hp as [Hp | Hp].
      * destruct (on_read_unreadable p Hp) as [-> ->]. rewrite Hp. simpl. done.
      * destruct (on_read_optimizes self readFile minify p Hp) as [-> ->].
        by rewrite (optimizes_readable p Hp).
    + apply Forall_map. eapply Forall_impl; [exact Hall |]. intros p [Hp | Hp]; simpl.
      * by destruct (on_read_unreadable p Hp) as [-> _].
      * by destruct (on_read_optimizes self readFile minify p Hp) as [-> _].
  - eapply Forall_impl; [exact Hall |]. intros p [Hp | Hp].
    + by destruct (on_read_unreadable p Hp) as [-> _].
    + by destruct (on_read_optimizes self readFile minify p Hp) as [-> _].
Qed.

Lemma optimizeCwd_groups (groups : list (list string)) :
  Forall (Forall (fun p => is_unreadable readFile p = true \/ optimizes readFile minify p))
    groups ->
  let run := Async.in_order (JsOptimizer.optimizeCwd self readFile minify) groups in
  signals run.1 = repeat success (unreadable_in (List.concat groups)) /\
  Async.all_done run.2 =
    if Nat.eqb (unreadable_in (List.concat groups)) 0 then Async.Done else Async.NotDone.
Proof.
  intros Hall. cbv zeta.
  assert (Hgroup : forall cwd,
             Forall (fun p => is_unreadable readFile p = true \/ optimizes readFile minify p)
               cwd ->
             signals (JsOptimizer.optimizeCwd self readFile minify cwd).1
               = repeat success (unreadable_in cwd) /\
             (JsOptimizer.optimizeCwd self readFile minify cwd).2
               = if Nat.eqb (unreadable_in cwd) 0 then Async.Done else Async.NotDone).
  { intros cwd Hcwd. unfold JsOptimizer.optimizeCwd.
    destruct (on_read_list cwd Hcwd) as [Hs He].
    by destruct (Async.in_order _ cwd). }
  assert (Hsafe : Forall (fun cwd => Async.is_uncaught
                            (JsOptimizer.optimizeCwd self readFile minify cwd).2 = false)
                    groups).
  { eapply Forall_impl; [exact Hall |]. intros cwd Hcwd.
    destruct (Hgroup cwd Hcwd) as [_ ->]. by destruct (Nat.eqb _ 0). }
  rewrite in_order_no_crash by done. cbn [fst snd].
  rewrite all_done_no_crash by (by apply Forall_map).
  induction Hall as [| cwd groups Hcwd _ IH]; [done |].
  apply Forall_cons in Hsafe as [_ Hsafe]. destruct (IH Hsafe) as [IHs IHe].
  destruct (Hgroup cwd Hcwd) as [Hs He].
  simpl. rewrite signals_app, Hs, IHs, He, List.filter_app, length_app, repeat_app.
  split; [done |].
  destruct (unreadable_in cwd) as [| n]; simpl; [exact IHe | done].
Qed.

End ReportFacts.

(** X11. When every file of the entry of JsOptimizer is either
    optimized or fails to be read, [init] sends nothing but success
    signals: one [resolve()] per unreadable file, or the single final
    [resolve()] when all files were read. A read failure is never
    reported as a failure of the unit. *)
Theorem JsOptimizer_reports_read_errors_as_success
    (self : BaseService.service)
    (readFile : string -> JsOptimizer.read_result) (minify : string -> JsOptimizer.minified)
    (groups : list (list string))
    (Htools : BaseService.tools self =
                {| BaseService.has_TaskManager := true;
                   BaseService.has_TaskManager_resolve := true |})
    (Hentry : BaseService.entry self = Some groups)
    (Hfiles : Forall (Forall (fun p => is_unreadable readFile p = true
                                       \/ optimizes readFile minify p)) groups) :
  let unreadable := List.length (List.filter (is_unreadable readFile) (List.concat groups)) in
  signals (JsOptimizer.init self readFile minify).1 =
    repeat (TMResolve (BaseService.name self) Js.Undefined)
      (if Nat.eqb unreadable 0 then 1 else unreadable).
Proof.
  intros unreadable. subst unreadable. unfold JsOptimizer.init. rewrite Hentry.
  destruct groups as [| g gs]; [by rewrite (resolve_with_task_manager self Htools) |].
  remember (g :: gs) as groups eqn:Hgroups. clear Hgroups.
  destruct (optimizeCwd_groups self Htools readFile minify groups Hfiles) as [Hs He].
  destruct (Async.in_order _ groups) as [log es]. cbn [fst snd] in *. rewrite He.
  assert (Hstarted : signals (List.map (fun path => Console Log ("Optimizing: " +:+ path))
                                (List.concat groups)) = []).
  { apply signals_console, forallb_forall. intros e He'.
    by apply in_map_iff in He' as [p [<- _]]. }
  destruct (Nat.eqb _ 0) eqn:Hzero; cbn [fst].
  - rewrite !signals_app, Hstarted, Hs, (resolve_with_task_manager self Htools).
    apply Nat.eqb_eq in Hzero. by rewrite Hzero.
  - by rewrite signals_app, Hstarted, Hs.
Qed.

Lemma JsOptimizer_reports_read_errors_as_success_witness :
  let groups := [["dist/a.js"; "dist/b.js"]] in
  let unreadable := List.length (List.filter (is_unreadable sample_readFile)
                                   (List.concat groups)) in
  signals (JsOptimizer.init (optimizer_with groups) sample_readFile sample_minify).1 =
    repeat (TMResolve "JsOptimizer" Js.Undefined)
      (if Nat.eqb unreadable 0 then 1 else unreadable).
Proof.
  apply (JsOptimizer_reports_read_errors_as_success
           (optimizer_with [["dist/a.js"; "dist/b.js"]]) sample_readFile sample_minify
           [["dist/a.js"; "dist/b.js"]]);
    [reflexivity | reflexivity |].
  constructor; [| constructor].
  constructor; [| constructor; [left; reflexivity | constructor]].
  right. split; [discriminate |].
  exists "var a = 1;", "var a=1;". repeat split; [reflexivity .. | discriminate].
Defined.





(** ** What StyleguideHelper reports *)

Lemma all_never_rejected (l : list Async.settle) :
  Forall (fun s => Async.is_rejected s = false) l ->
  Async.all l = if existsb Async.is_pending l then Async.Pending else Async.Fulfilled.
Proof.
  intros Hall. unfold Async.all.
  assert (Hfind : find Async.is_rejected l = None).
  { induction Hall as [| s l Hs _ IH]; [done |]. simpl. by rewrite Hs. }
  by rewrite Hfind.
Qed.

Section HelperFacts.

Variable self : BaseService.service.
Variable config_options : option StyleguideHelper.options.
Variable existsSync : string -> bool.
Variable writeFile : string -> StyleguideHelper.write_result.
Variable resolve_directory : string -> string.
Variable story_destination : string -> string -> string.

Local Abbreviation setupInitialStories :=
  (StyleguideHelper.setupInitialStories self config_options existsSync writeFile
     resolve_directory story_destination).
Local Abbreviation helper_init :=
  (StyleguideHelper.init self config_options existsSync writeFile
     resolve_directory story_destination).

Lemma write_story_console (d : string) :
  forallb is_console (StyleguideHelper.write_story writeFile d).1 = true /\
  Async.is_rejected (StyleguideHelper.write_story writeFile d).2 = false.
Proof. unfold StyleguideHelper.write_story. by destruct (writeFile d). Qed.

Lemma forallb_app_true {A : Type} (p : A -> bool) (l1 l2 : list A) :
  forallb p l1 = true -> forallb p l2 = true -> forallb p (l1 ++ l2) = true.
Proof. intros H1 H2. by rewrite forallb_app, H1, H2. Qed.

Lemma writes_console (queue : list string) :
  forallb is_console
    (List.flat_map fst (List.map (StyleguideHelper.write_story writeFile) queue)) = true /\
  Forall (fun s => Async.is_rejected s = false)
    (List.map snd (List.map (StyleguideHelper.write_story writeFile) queue)).
Proof.
  induction queue as [| d queue [IHc IHr]]; [done |]. simpl.
  destruct (write_story_console d) as [Hc Hr]. split.
  - by apply forallb_app_true.
  - by constructor.
Qed.

Lemma map_console (l : level) (f : string -> string) (xs : list string) :
  forallb is_console (List.map (fun x => Console l (f x)) xs) = true.
Proof. by induction xs. Qed.

(** A group of stories never signals by itself: the handler of a
    rejected write queue, the only place that calls [reject], is never
    reached, since no promise of the queue is ever rejected. *)
Lemma setupInitialStories_console (entry : list string) :
  forallb is_console (setupInitialStories entry).1 = true.
Proof.
  unfold StyleguideHelper.setupInitialStories.
  destruct entry as [| source entry]; [done |].
  destruct config_options as [o |]; [| done].
  set (dir := if Js.truthy _ then _ else _).
  set (queue := List.filter _ _).
  destruct (writes_console queue) as [Hwrites Hnever].
  rewrite (all_never_rejected _ Hnever).
  assert (Hmade : forallb is_console
                    (if Js.truthy (Js.Str (StyleguideHelper.destinationDirectory o))
                     then [Console Info ("Destination directory created: " +:+ dir)]
                     else []) = true) by (by destruct (Js.truthy _)).
  destruct (existsb Async.is_pending _); cbn [fst snd];
    rewrite !forallb_app, Hmade, Hwrites, map_console; done.
Qed.

End HelperFacts.

(** X13. StyleguideHelper never signals a failure and never signals
    twice: [init] sends the single [resolve()] exactly when its promise
    is fulfilled, and nothing when it hangs on a write that threw or is
    rejected for a missing entry list or missing options. *)
Theorem StyleguideHelper_signals_iff_fulfilled
    (self : BaseService.service)
    (config_options : option StyleguideHelper.options)
    (existsSync : string -> bool) (writeFile : string -> StyleguideHelper.write_result)
    (resolve_directory : string -> string) (story_destination : string -> string -> string)
    (Htools : BaseService.tools self =
                {| BaseService.has_TaskManager := true;
                   BaseService.has_TaskManager_resolve := true |}) :
  let run := StyleguideHelper.init self config_options existsSync writeFile
               resolve_directory story_destination in
  signals run.1 = match run.2 with
                  | Async.Fulfilled => [TMResolve (BaseService.name self) Js.Undefined]
                  | _ => []
                  end.
Proof.
  intros run. subst run. unfold StyleguideHelper.init.
  destruct (BaseService.entry self) as [groups |]; [| done].
  set (stories := List.map _ groups).
  assert (Hquiet : signals (List.flat_map fst stories) = []).
  { apply signals_console. subst stories.
    induction groups as [| g groups IH]; [done |]. simpl.
    apply forallb_app_true; [| done]. apply setupInitialStories_console. }
  destruct (Async.all (List.map snd stories)); cbn [fst snd]; [| done | done].
  by rewrite signals_app, Hquiet, (resolve_with_task_manager self Htools).
Qed.

Lemma StyleguideHelper_signals_iff_fulfilled_witness :
  let run := StyleguideHelper.init (helper_with (Some [["src/button.twig"; "src/card.twig"]]))
               (Some {| StyleguideHelper.destinationDirectory := "";
                        StyleguideHelper.ignoreInitial := false |})
               sample_story_exists (fun _ => StyleguideHelper.WriteOk) (fun d => d)
               sample_story_destination in
  signals run.1 = match run.2 with
                  | Async.Fulfilled => [TMResolve "StyleguideHelper" Js.Undefined]
                  | _ => []
                  end.
Proof.
  apply (StyleguideHelper_signals_iff_fulfilled
           (helper_with (Some [["src/button.twig"; "src/card.twig"]]))).
  reflexivity.
Defined.

Lemma console_text (l l' : level) (m m' : string) :
  Console l m = Console l' m' -> m = m'.
Proof. congruence. Qed.

Lemma created_injective (d d' : string) :
  "Styleguide entry template created: " +:+ d
  = "Styleguide entry template created: " +:+ d' -> d = d'.
Proof. cbv [String.append]. intros H. by simplify_eq. Qed.

Lemma skipping_is_not_created (d d' : string) :
  "Skipping existing styleguide story: " +:+ d
  <> "Styleguide entry template created: " +:+ d'.
Proof. cbv [String.append]. discriminate. Qed.

(** X14. Unless [ignoreInitial] is set, [setupInitialStories] leaves an
    existing story alone: for a source whose story file exists it logs
    that the story is skipped, and it never logs that the story was
    created. *)
Theorem existing_story_is_skipped
    (self : BaseService.service) (o : StyleguideHelper.options)
    (existsSync : string -> bool) (writeFile : string -> StyleguideHelper.write_result)
    (resolve_directory : string -> string) (story_destination : string -> string -> string)
    (entry : list string) (source : string)
    (Hkeep : StyleguideHelper.ignoreInitial o = false)
    (Hsource : source ∈ entry) :
  let dir := if Js.truthy (Js.Str (StyleguideHelper.destinationDirectory o))
             then resolve_directory (StyleguideHelper.destinationDirectory o) else "" in
  let destination := story_destination dir source in
  let run := StyleguideHelper.setupInitialStories self (Some o) existsSync writeFile
               resolve_directory story_destination entry in
  existsSync destination = true ->
  Console Log ("Skipping existing styleguide story: " +:+ destination) ∈ run.1 /\
  Console Log ("Styleguide entry template created: " +:+ destination) ∉ run.1.
Proof.
  intros dir destination run Hexists. subst run.
  unfold StyleguideHelper.setupInitialStories.
  destruct entry as [| s0 entry0] eqn:Hentry; [by apply elem_of_nil in Hsource |].
  rewrite <- Hentry in *. clear Hentry s0 entry0. fold dir. rewrite Hkeep. cbn [negb andb].
  set (destinations := List.map (story_destination dir) entry).
  set (queue := List.filter (fun d => negb (existsSync d)) destinations).
  set (made := if Js.truthy _ then _ else _).
  set (skipped := List.map _ (List.filter _ destinations)).
  set (writes := List.map (StyleguideHelper.write_story writeFile) queue).
  assert (Hskipped : Console Log ("Skipping existing styleguide story: " +:+ destination)
                       ∈ skipped).
  { subst skipped. apply list_elem_of_In, in_map_iff. exists destination. split; [done |].
    apply filter_In. split; [| done]. subst destinations destination.
    apply in_map. by apply list_elem_of_In. }
  assert (Hmade : Console Log ("Styleguide entry template created: " +:+ destination) ∉ made).
  { subst made. destruct (Js.truthy _); intros Hin.
    - apply list_elem_of_singleton in Hin. discriminate.
    - by apply elem_of_nil in Hin. }
  assert (Hnot_skipped : Console Log ("Styleguide entry template created: " +:+ destination)
                           ∉ skipped).
  { subst skipped. intros Hin. apply list_elem_of_In, in_map_iff in Hin as [d [Heq _]].
    apply console_text in Heq. by apply skipping_is_not_created in Heq. }
  assert (Hwrites : Console Log ("Styleguide entry template created: " +:+ destination)
                      ∉ List.flat_map fst writes).
  { subst writes. intros Hin. apply list_elem_of_In, in_flat_map in Hin as [w [Hw Hin]].
    apply in_map_iff in Hw as [d [<- Hd]]. apply filter_In in Hd as [_ Hd].
    unfold StyleguideHelper.write_story in Hin.
    assert (Hsame : d = destination -> False).
    { intros ->. by rewrite Hexists in Hd. }
    destruct (writeFile d); simpl in Hin;
      repeat (destruct Hin as [Hin | Hin];
              [try discriminate; apply console_text, created_injective in Hin; done |]);
      done. }
  destruct (Async.all (List.map snd writes)); cbn [fst].
  - split.
    + apply elem_of_app. right. apply elem_of_app. by left.
    + intros Hin. apply elem_of_app in Hin as [Hin | Hin]; [done |].
      apply elem_of_app in Hin as [Hin | Hin]; [done |].
      apply elem_of_app in Hin as [Hin | Hin]; [done |].
      apply list_elem_of_singleton in Hin. discriminate.
  - split.
    + apply elem_of_app. right. apply elem_of_app. by left.
    + intros Hin. apply elem_of_app in Hin as [Hin | Hin]; [done |].
      apply elem_of_app in Hin as [Hin | Hin]; [done |].
      apply elem_of_app in Hin as [Hin | Hin]; [done |].
      apply elem_of_cons in Hin as [Hin | Hin]; [discriminate |].
      apply elem_of_app in Hin as [Hin | Hin].
      * unfold BaseService.reject, BaseService.resolve in Hin.
        destruct (_ && _); repeat (apply elem_of_cons in Hin as [Hin | Hin]; [discriminate |]);
          by apply elem_of_nil in Hin.
      * apply list_elem_of_singleton in Hin. discriminate.
  - split.
    + apply elem_of_app. right. apply elem_of_app. by left.
    + intros Hin. apply elem_of_app in Hin as [Hin | Hin]; [done |].
      apply elem_of_app in Hin as [Hin | Hin]; done.
Qed.

Lemma existing_story_is_skipped_witness :
  let o := {| StyleguideHelper.destinationDirectory := "";
              StyleguideHelper.ignoreInitial := false |} in
  let run := StyleguideHelper.setupInitialStories (helper_with None) (Some o)
               sample_story_exists (fun _ => StyleguideHelper.WriteOk) (fun d => d)
               sample_story_destination ["src/button"; "src/card"] in
  Console Log "Skipping existing styleguide story: src/button.stories.js" ∈ run.1 /\
  Console Log "Styleguide entry template created: src/button.stories.js" ∉ run.1.
Proof.
  apply (existing_story_is_skipped (helper_with None)
           {| StyleguideHelper.destinationDirectory := "";
              StyleguideHelper.ignoreInitial := false |}
           sample_story_exists (fun _ => StyleguideHelper.WriteOk) (fun d => d)
           sample_story_destination ["src/button"; "src/card"] "src/button");
    [reflexivity | apply list_elem_of_here | reflexivity].
Defined.

(** ** The titles of the stories *)

Section TitleFacts.

Variable module_name : string -> string.
Variable title_dirs : string -> list string.
Variable title_config : option StyleguideHelper.title_options.

Local Abbreviation base_title :=
  (StyleguideHelper.base_title module_name title_dirs title_config).
Local Abbreviation useTitle :=
  (StyleguideHelper.useTitle module_name title_dirs title_config).
Local Abbreviation useTitles :=
  (StyleguideHelper.useTitles module_name title_dirs title_config).
Local Abbreviation uses := (uses_of module_name title_dirs title_config).

Lemma useTitle_step (titles : gmap string nat) (source : string) :
  positive titles ->
  let k := (default 0%nat (titles !! base_title source) + 1)%nat in
  (useTitle titles source).1.1 = <[base_title source := k]> titles /\
  (useTitle titles source).1.2 = kth_title (base_title source) k.
Proof.
  intros Hpos. unfold StyleguideHelper.useTitle, kth_title.
  destruct (titles !! base_title source) as [n |] eqn:Hn; simpl; [| done].
  split; [done |]. apply Hpos in Hn.
  destruct (Nat.eqb_spec (n + 1) 1); [lia | done].
Qed.

Lemma uses_cons (t source : string) (rest : list string) :
  uses t (source :: rest) =
    ((if String.eqb (base_title source) t then 1 else 0) + uses t rest)%nat.
Proof.
  unfold uses_of. simpl. by destruct (String.eqb (base_title source) t).
Qed.

Lemma useTitles_from (sources : list string) (titles : gmap string nat) :
  positive titles ->
  let run := useTitles titles sources in
  positive run.1 /\
  (forall t, default 0%nat (run.1 !! t) = (default 0%nat (titles !! t) + uses t sources)%nat) /\
  (forall i source,
      sources !! i = Some source ->
      run.2 !! i =
        Some (kth_title (base_title source)
                (default 0%nat (titles !! base_title source)
                 + uses (base_title source) (take (S i) sources)))).
Proof.
  revert titles. induction sources as [| s rest IH]; intros titles Hpos.
  - simpl. split; [done |]. split; [intros t; unfold uses_of; simpl; lia | done].
  - destruct (useTitle_step titles s Hpos) as [Hmap Htitle]. cbv zeta in Hmap, Htitle.
    cbn [StyleguideHelper.useTitles].
    destruct (useTitle titles s) as [[titles1 title] log]. cbn [fst snd] in Hmap, Htitle.
    assert (Hpos1 : positive titles1).
    { subst titles1. intros t n. rewrite lookup_insert.
      case_decide; [intros [= <-]; lia | apply Hpos]. }
    destruct (IH titles1 Hpos1) as [Hfinal [Hcount Hnth]].
    destruct (useTitles titles1 rest) as [titles2 more]. cbn [fst snd] in *.
    assert (Hlook : forall t, default 0%nat (titles1 !! t)
                              = (default 0%nat (titles !! t)
                                 + (if String.eqb (base_title s) t then 1 else 0))%nat).
    { intros t. subst titles1. rewrite lookup_insert.
      destruct (String.eqb_spec (base_title s) t) as [<- | Hne].
      - rewrite decide_True by done. simpl. lia.
      - rewrite decide_False by done. lia. }
    split; [done |]. split.
    + intros t. rewrite Hcount, Hlook, uses_cons. lia.
    + intros [| i] source Hi; simpl in Hi.
      * injection Hi as <-. simpl. rewrite Htitle. do 2 f_equal.
        rewrite take_0, uses_cons, String.eqb_refl. unfold uses_of. simpl. lia.
      * simpl. rewrite (Hnth i source Hi). do 2 f_equal.
        rewrite Hlook, uses_cons. lia.
Qed.

End TitleFacts.

(** X15. [useTitle] hands out the base title of a source the first
    time it is computed and the base title with the suffix __k the k-th
    time, and its table of titles counts, for every base title, how
    often it was computed so far. *)
Theorem useTitle_numbers_repeated_titles
    (module_name : string -> string) (title_dirs : string -> list string)
    (title_config : option StyleguideHelper.title_options) (sources : list string) :
  let run := StyleguideHelper.useTitles module_name title_dirs title_config ∅ sources in
  (forall t, run.1 !! t =
             let n := uses_of module_name title_dirs title_config t sources in
             if Nat.eqb n 0 then None else Some n) /\
  (forall i source,
      sources !! i = Some source ->
      let base := StyleguideHelper.base_title module_name title_dirs title_config source in
      let k := uses_of module_name title_dirs title_config base (take (S i) sources) in
      run.2 !! i = Some (if Nat.eqb k 1 then base else base +:+ "__" +:+ pretty k)).
Proof.
  assert (Hempty : positive ∅) by (intros t n Hn; by rewrite lookup_empty in Hn).
  destruct (useTitles_from module_name title_dirs title_config sources ∅ Hempty)
    as [Hpos [Hcount Hnth]].
  cbv zeta. split.
  - intros t. specialize (Hcount t). rewrite lookup_empty in Hcount. simpl in Hcount.
    destruct (_ !! t) as [n |] eqn:Hn; simpl in Hcount.
    + apply Hpos in Hn. rewrite <- Hcount. destruct (Nat.eqb_spec n 0); [lia | done].
    + by rewrite <- Hcount.
  - intros i source Hi. rewrite (Hnth i source Hi), lookup_empty. done.
Qed.

Example useTitle_on_three_buttons :
  (StyleguideHelper.useTitles plain_name no_dirs None ∅ ["Button"; "Card"; "Button"; "Button"]).2
  = ["Button"; "Card"; "Button__2"; "Button__3"].
Proof. reflexivity. Qed.

(** ** The values of a variant *)

Lemma indexOf_lookup (l : list string) (v : string) (i : nat) :
  StyleguideHelper.indexOf l v = Some i -> l !! i = Some v.
Proof.
  revert i. induction l as [| x l IH]; intros i; [done |]. simpl.
  destruct (String.eqb_spec x v) as [-> | Hne].
  - by intros [= <-].
  - destruct (StyleguideHelper.indexOf l v) as [j |]; [| done].
    simpl. intros [= <-]. by apply IH.
Qed.

Lemma indexOf_elem_of (l : list string) (v : string) :
  v ∈ l -> is_Some (StyleguideHelper.indexOf l v).
Proof.
  induction l as [| x l IH]; [by intros ?%elem_of_nil |]. simpl.
  destruct (String.eqb_spec x v) as [-> | Hne]; [eauto |].
  intros [-> | Hin]%elem_of_cons; [done |].
  destruct (IH Hin) as [j ->]. simpl. eauto.
Qed.

Lemma imap_pair_lookup (l : list string) (j i : nat) (v : string) :
  imap pair l !! j = Some (i, v) <-> j = i /\ l !! i = Some v.
Proof.
  rewrite list_lookup_imap. destruct (l !! j) as [w |] eqn:Hj; simpl; split.
  - intros [= <- <-]. done.
  - intros [<- Hi]. congruence.
  - done.
  - intros [<- Hi]. congruence.
Qed.

Lemma first_occurrences_spec (l : list string) :
  NoDup (StyleguideHelper.first_occurrences l) /\
  forall v, v ∈ StyleguideHelper.first_occurrences l <-> v ∈ l.
Proof.
  unfold StyleguideHelper.first_occurrences. split.
  - apply (NoDup_fmap_2_strong snd).
    + intros [i v] [j w] Hi Hj Heq. simpl in Heq. subst w.
      apply list_elem_of_In, filter_In in Hi as [_ Hi].
      apply list_elem_of_In, filter_In in Hj as [_ Hj].
      apply bool_decide_eq_true in Hi, Hj. simpl in *. congruence.
    + apply NoDup_ListNoDup, List.NoDup_filter, NoDup_ListNoDup.
      apply NoDup_alt. intros i j [k v] Hi Hj.
      apply imap_pair_lookup in Hi as [-> _]. by apply imap_pair_lookup in Hj as [-> _].
  - intros v. rewrite list_elem_of_In, in_map_iff. split.
    + intros [[i w] [Heq Hin]]. simpl in Heq. subst w.
      apply filter_In in Hin as [_ Hin]. apply bool_decide_eq_true in Hin. simpl in Hin.
      apply indexOf_lookup in Hin. by eapply list_elem_of_lookup_2.
    + intros Hin. destruct (indexOf_elem_of l v Hin) as [i Hi].
      exists (i, v). split; [done |]. apply filter_In. split.
      * apply list_elem_of_In. apply (list_elem_of_lookup_2 _ i).
        apply imap_pair_lookup. split; [done |]. by apply indexOf_lookup.
      * by apply bool_decide_eq_true.
Qed.

Lemma without_spaces_has_none (s : string) (c : ascii) :
  c ∈ list_ascii_of_string (StyleguideHelper.without_spaces s) -> c <> " "%char.
Proof.
  induction s as [| d s IH]; [by intros ?%elem_of_nil |]. simpl.
  destruct (Nat.eqb_spec (nat_of_ascii d) 32) as [Hd | Hd]; [done |].
  simpl. intros [-> | Hin]%elem_of_cons; [| by apply IH].
  intros ->. by apply Hd.
Qed.

(** X16. The values [loadVariants] keeps for a variant are the texts
    the query matched, one for each distinct match, with every space
    taken out: each match is represented, each kept value stems from a
    match and holds no space, and there are as many values as distinct
    matches (duplicates are dropped before the spaces are). *)
Theorem variant_map_one_value_per_distinct_match (matched : list string) :
  let kept := StyleguideHelper.variant_map matched in
  (forall m, m ∈ matched -> StyleguideHelper.without_spaces m ∈ kept) /\
  (forall r, r ∈ kept ->
             (exists m, m ∈ matched /\ r = StyleguideHelper.without_spaces m) /\
             forall c, c ∈ list_ascii_of_string r -> c <> " "%char) /\
  List.length kept = size (list_to_set matched : gset string).
Proof.
  destruct (first_occurrences_spec matched) as [Hnodup Hsame].
  unfold StyleguideHelper.variant_map. cbv zeta. split; [| split].
  - intros m Hm. apply list_elem_of_In, in_map. apply list_elem_of_In. by apply Hsame.
  - intros r Hr. apply list_elem_of_In, in_map_iff in Hr as [m [<- Hm]].
    apply list_elem_of_In, Hsame in Hm. split; [eauto |].
    apply without_spaces_has_none.
  - rewrite length_map, <- (size_list_to_set (C := gset string)) by done.
    f_equal. apply set_eq. intros v. rewrite !elem_of_list_to_set. apply Hsame.
Qed.

Example variant_map_of_modifiers :
  StyleguideHelper.variant_map [".button--primary"; ".button --small"; ".button--primary";
                                ".button--small"]
  = [".button--primary"; ".button--small"; ".button--small"].
Proof. reflexivity. Qed.

(** ** What [define] leaves in the environment *)

Lemma define_other (process_env : gmap string Js.value) (k : string) :
  k ∉ List.map fst Environment.defaults ->
  Environment.define process_env !! k = process_env !! k.
Proof. apply define_options_other. Qed.

(** X17. [define] leaves every variable that has no default as it is,
    and gives every option that is missing from the environment the
    text of its default: the ports come out as '8080' and '35729', the
    switches as 'false'. *)
Theorem define_fills_missing_options_only (process_env : gmap string Js.value) :
  (forall k, k ∉ List.map fst Environment.defaults ->
             Environment.define process_env !! k = process_env !! k) /\
  (forall k d, (k, d) ∈ Environment.defaults -> process_env !! k = None ->
               Environment.define process_env !! k = Some (Js.Str (Js.to_string d))).
Proof.
  split; [apply define_other |].
  intros k d Hin Hnone. unfold Environment.define.
  rewrite (define_on_lookup _ process_env k d Hin), Hnone.
  unfold Environment.defaults in Hin.
  repeat (apply elem_of_cons in Hin as [Hin | Hin]; [injection Hin as -> ->; reflexivity |]).
  by apply elem_of_nil in Hin.
Qed.

Lemma coerced_process_env_text (s : string) :
  coerced Environment.kept_by_process_env (Js.Str s) = Js.Str (defined_text s).
Proof.
  unfold coerced, defined_text, Environment.is_word.
  destruct (existsb _ ["false"; "0"]); [reflexivity |].
  by destruct (existsb _ ["true"; "1"]).
Qed.

Lemma defined_text_fixed (s : string) : defined_text (defined_text s) = defined_text s.
Proof.
  unfold defined_text.
  destruct (existsb (String.eqb (Environment.toLowerCase s)) ["false"; "0"]) eqn:Hf;
    [reflexivity |].
  destruct (existsb (String.eqb (Environment.toLowerCase s)) ["true"; "1"]) eqn:Ht;
    [reflexivity |].
  by rewrite Hf, Ht.
Qed.

(** X18. For an option that has a default and is set in the
    environment, [define] keeps the text as it is, except that 'false'
    and '0' become 'false' and 'true' and '1' become 'true', whatever
    their letter case: THEME_ENVIRONMENT=development stays
    'development'. *)
Theorem define_keeps_set_options
    (process_env : gmap string Js.value) (k s : string)
    (Hdefault : k ∈ List.map fst Environment.defaults)
    (Hset : process_env !! k = Some (Js.Str s)) :
  Environment.define process_env !! k = Some (Js.Str (defined_text s)).
Proof.
  apply list_elem_of_In, in_map_iff in Hdefault as [[k' d] [Hk Hin]]. simpl in Hk. subst k'.
  apply list_elem_of_In in Hin. unfold Environment.define.
  rewrite (define_on_lookup _ process_env k d Hin), Hset. simpl.
  by rewrite coerced_process_env_text.
Qed.

Lemma define_keeps_set_options_witness :
  Environment.define {[ "THEME_ENVIRONMENT" := Js.Str "development" ]} !! "THEME_ENVIRONMENT"
  = Some (Js.Str (defined_text "development")).
Proof.
  apply (define_keeps_set_options {[ "THEME_ENVIRONMENT" := Js.Str "development" ]}
           "THEME_ENVIRONMENT" "development");
    [do 2 apply list_elem_of_further; apply list_elem_of_here | reflexivity].
Defined.

(** Every option that has a default comes out of [define] as a text
    that [define] would leave alone. *)
Lemma define_default_text (process_env : gmap string Js.value) (k : string) (d : Js.value) :
  (k, d) ∈ Environment.defaults ->
  (forall v, process_env !! k = Some v -> exists s, v = Js.Str s) ->
  exists s, Environment.define process_env !! k = Some (Js.Str (defined_text s)).
Proof.
  intros Hin Hstring. unfold Environment.define.
  rewrite (define_on_lookup _ process_env k d Hin).
  destruct (process_env !! k) as [v |].
  - destruct (Hstring v eq_refl) as [s ->]. exists s. simpl.
    by rewrite coerced_process_env_text.
  - exists (Js.to_string d). unfold Environment.defaults in Hin.
    repeat (apply elem_of_cons in Hin as [Hin | Hin];
            [injection Hin as -> ->; reflexivity |]).
    by apply elem_of_nil in Hin.
Qed.

(** X19. [define] is idempotent on a process environment, whose
    values are strings: defining the environment again changes
    nothing. *)
Theorem define_idempotent (process_env : gmap string Js.value)
    (Hstrings : forall k v, process_env !! k = Some v -> exists s, v = Js.Str s) :
  Environment.define (Environment.define process_env) = Environment.define process_env.
Proof.
  apply map_eq. intros k.
  destruct (decide (k ∈ List.map fst Environment.defaults)) as [Hk | Hk].
  - apply list_elem_of_In, in_map_iff in Hk as [[k' d] [Hk' Hin]]. simpl in Hk'. subst k'.
    apply list_elem_of_In in Hin.
    destruct (define_default_text process_env k d Hin (Hstrings k)) as [s Hs].
    unfold Environment.define at 1.
    rewrite (define_on_lookup _ (Environment.define process_env) k d Hin), Hs. simpl.
    by rewrite coerced_process_env_text, defined_text_fixed.
  - by rewrite !define_other.
Qed.

Lemma define_idempotent_witness :
  Environment.define (Environment.define {[ "THEME_DEBUG" := Js.Str "1" ]})
  = Environment.define {[ "THEME_DEBUG" := Js.Str "1" ]}.
Proof.
  apply (define_idempotent {[ "THEME_DEBUG" := Js.Str "1" ]}).
  intros k v Hk. apply lookup_singleton_Some in Hk as [_ <-]. by exists "1".
Defined.

(** ** The order of the calls of the legacy driver *)

Lemma task_calls_app (l1 l2 : list event) :
  task_calls (l1 ++ l2) = task_calls l1 ++ task_calls l2.
Proof. apply omap_app. Qed.

Lemma task_calls_complete (method : string -> option LegacyHarbor.awaited)
    (ks : list (string * LegacyHarbor.awaited)) :
  task_calls (LegacyHarbor.complete ks) = [].
Proof.
  assert (Hall : Forall (fun e => is_success e = true) (LegacyHarbor.complete ks)).
  { apply list.Forall_forall. intros e. apply (complete_only_success method). }
  induction Hall as [| e es He _ IH]; [done |].
  destruct e as [l m | | | | | | |]; try discriminate. exact IH.
Qed.

(** X20. The legacy driver calls the handlers in the order of the
    names on the command line, once for every name that is a method and
    never for another name, whatever the handlers do and however long
    they take. *)
Theorem legacy_init_calls_in_command_line_order
    (method : string -> option LegacyHarbor.awaited) (task : string)
    (Htask : task <> "") :
  task_calls (LegacyHarbor.init method (Some task)) =
    List.filter (fun name => bool_decide (is_Some (method name)))
      (List.map LegacyHarbor.trim (LegacyHarbor.split task)).
Proof.
  rewrite (legacy_init_run method task Htask), task_calls_app, task_calls_complete by done.
  rewrite app_nil_r. unfold LegacyHarbor.forEach. cbn [fst].
  induction (List.map LegacyHarbor.trim (LegacyHarbor.split task)) as [| name names IH];
    [done |].
  simpl. rewrite task_calls_app, IH. unfold LegacyHarbor.dispatch.
  by destruct (method name) as [a |].
Qed.

Lemma legacy_init_calls_in_command_line_order_witness :
  task_calls (LegacyHarbor.init two_methods (Some "stylesheets, serve ,clean")) =
    List.filter (fun name => bool_decide (is_Some (two_methods name)))
      (List.map LegacyHarbor.trim (LegacyHarbor.split "stylesheets, serve ,clean")).
Proof.
  apply (legacy_init_calls_in_command_line_order two_methods "stylesheets, serve ,clean").
  discriminate.
Defined.

(** ** The counters of the PostcssCompiler *)

(** A loop whose callbacks count up to the number of their items calls
    back at most once, at the last item that counts. *)
Lemma count_one_loop {A : Type} (counts : A -> bool) (total : nat) (l : list A)
    (q c : nat) :
  (q + List.length (List.filter counts l) <= total)%nat ->
  foldl (fun (st : nat * nat) (x : A) =>
           if counts x then PostcssCompiler.count_one total st else st) (q, c) l
  = ((q + List.length (List.filter counts l))%nat,
     (c + if (0 <? List.length (List.filter counts l))%nat
               && (total <=? q + List.length (List.filter counts l))%nat
          then 1 else 0)%nat).
Proof.
  revert q c. induction l as [| x l IH]; intros q c Hle; simpl in *.
  - f_equal; lia.
  - destruct (counts x); simpl in *; [| by apply IH].
    change (PostcssCompiler.count_one total (q, c))
      with (S q, if (total <=? S q)%nat then S c else c).
    rewrite IH by lia. f_equal; [lia |].
    destruct (Nat.leb_spec total (S q)), (Nat.ltb_spec 0 (List.length (List.filter counts l))),
      (Nat.leb_spec total (S q + List.length (List.filter counts l))),
      (Nat.leb_spec total (q + S (List.length (List.filter counts l)))); simpl; lia.
Qed.

Lemma filter_all_length {A : Type} (f : A -> bool) (l : list A) :
  List.length (List.filter f l) = List.length l <-> forallb f l = true.
Proof.
  induction l as [| x l IH]; simpl; [done |].
  pose proof (List.filter_length_le f l) as Hle.
  destruct (f x); simpl; [rewrite <- IH; lia |].
  split; [lia | done].
Qed.

Lemma loop_calls {A : Type} (counts : A -> bool) (l : list A) :
  (foldl (fun (st : nat * nat) (x : A) =>
            if counts x then PostcssCompiler.count_one (List.length l) st else st)
     (0%nat, 0%nat) l).2
  = if negb (Nat.eqb (List.length l) 0) && forallb counts l then 1%nat else 0%nat.
Proof.
  pose proof (List.filter_length_le counts l) as Hle.
  rewrite count_one_loop by (simpl; lia). cbn [snd]. simpl.
  pose proof (filter_all_length counts l) as Hall.
  destruct (forallb counts l).
  - rewrite (proj2 Hall eq_refl). rewrite Nat.leb_refl.
    by destruct (List.length l).
  - destruct (Nat.leb_spec (List.length l) (List.length (List.filter counts l))).
    + assert (List.length (List.filter counts l) = List.length l) as Heq by lia.
      by apply Hall in Heq.
    + by rewrite !andb_false_r.
Qed.

Section PostcssFacts.

Variable THEME_SRC : string.
Variable join : string -> string -> string.
Variable sync : string -> list string.
Variable stat_size : string -> Z.
Variable compile : string -> PostcssCompiler.compile_result.
Variable destination : string -> string.

Local Abbreviation processFile := (PostcssCompiler.processFile compile destination).
Local Abbreviation process_entry :=
  (PostcssCompiler.process_entry stat_size compile destination).
Local Abbreviation processCwd := (PostcssCompiler.processCwd stat_size compile destination).
Local Abbreviation directories := (PostcssCompiler.directories THEME_SRC sync).
Local Abbreviation process_directory :=
  (PostcssCompiler.process_directory THEME_SRC join stat_size compile destination).
Local Abbreviation init :=
  (PostcssCompiler.init THEME_SRC join sync stat_size compile destination).
Local Abbreviation compiled := (is_compiled stat_size compile destination).

Lemma process_entry_counts (entry : string) :
  (process_entry entry).2 = true <-> compiled entry.
Proof.
  unfold PostcssCompiler.process_entry, is_compiled.
  destruct (PostcssCompiler.is_empty_file stat_size entry); [done |].
  destruct (processFile entry) as [log s]. cbn [snd].
  destruct s; split; try done; intros H; by specialize (H eq_refl).
Qed.

Lemma forallb_compiled (cwd : list string) :
  forallb (fun e => (process_entry e).2) cwd = true <-> forall e, e ∈ cwd -> compiled e.
Proof.
  rewrite forallb_forall. split; intros H e He.
  - by apply process_entry_counts, H, list_elem_of_In.
  - by apply process_entry_counts, H, list_elem_of_In.
Qed.

Lemma processCwd_calls (cwd : list string) :
  (processCwd cwd).2 =
    if negb (Nat.eqb (List.length cwd) 0) && forallb (fun e => (process_entry e).2) cwd
    then 1%nat else 0%nat.
Proof.
  unfold PostcssCompiler.processCwd. cbn [snd].
  rewrite <- (loop_calls (fun e => (process_entry e).2) cwd).
  by rewrite (foldl_fmap _ (0%nat, 0%nat) cwd process_entry).
Qed.

(** X21. [processCwd] calls [cb] at most once, and it does so exactly
    when the directory has a stylesheet and every stylesheet in it is
    either empty or compiled and written: one stylesheet that cannot be
    read, compiled or written keeps the promise pending, since the
    counter then never reaches the number of files. *)
Theorem processCwd_calls_back_once_iff_all_compiled (cwd : list string) :
  ((processCwd cwd).2 <= 1)%nat /\
  ((processCwd cwd).2 = 1%nat <-> cwd <> [] /\ forall e, e ∈ cwd -> compiled e).
Proof.
  rewrite processCwd_calls, <- forallb_compiled.
  destruct cwd as [| e cwd]; [simpl; split; [lia | split; [done | by intros [H _]]] |].
  cbn [List.length Nat.eqb negb andb].
  destruct (forallb _ (e :: cwd)); split; try lia; split; done.
Qed.

Lemma process_directory_counts (d : string * list string) :
  (process_directory d).2 = true <-> forall e, e ∈ d.2 -> compiled e.
Proof.
  unfold PostcssCompiler.process_directory.
  destruct d.2 as [| e cwd] eqn:Hcwd.
  - split; [intros _ e He; by apply elem_of_nil in He | done].
  - pose proof (processCwd_calls (e :: cwd)) as Hcalls.
    destruct (processCwd (e :: cwd)) as [log calls]. cbn [snd] in *.
    rewrite <- forallb_compiled. subst calls.
    cbn [List.length Nat.eqb negb andb].
    by destruct (forallb _ (e :: cwd)).
Qed.

Lemma close_directory_counter (total : nat) (ds : list (string * list string))
    (st : nat * nat * list event) :
  (foldl (fun (st : nat * nat * list event) (d : string * list string) =>
            if (process_directory d).2
            then PostcssCompiler.close_directory THEME_SRC join total d st else st) st ds).1
  = foldl (fun (st : nat * nat) (d : string * list string) =>
             if (process_directory d).2 then PostcssCompiler.count_one total st else st)
      st.1 ds.
Proof.
  revert st. induction ds as [| d ds IH]; intros st; [done |].
  simpl. rewrite IH. f_equal.
  destruct (process_directory d).2; [| done].
  by destruct st as [[q c] log].
Qed.

Lemma init_settles :
  init.2 = if forallb (fun d => (process_directory d).2) directories
           then Async.Fulfilled else Async.Pending.
Proof.
  unfold PostcssCompiler.init. cbn [snd].
  rewrite (foldl_fmap _ (0%nat, 0%nat, []) directories
             (fun d => (d, process_directory d))).
  cbn [fst snd].
  rewrite (close_directory_counter (List.length directories) directories (0%nat, 0%nat, [])).
  cbn [fst]. rewrite loop_calls.
  change (List.length directories) with 2%nat. cbn [Nat.eqb negb andb].
  by destruct (forallb _ directories).
Qed.

Lemma init_fulfilled_iff :
  init.2 = Async.Fulfilled <->
  forall d e, d ∈ directories -> e ∈ d.2 -> compiled e.
Proof.
  rewrite init_settles.
  destruct (forallb _ directories) eqn:Hall.
  - split; [intros _ d e Hd | done].
    rewrite forallb_forall in Hall.
    by apply process_directory_counts, Hall, list_elem_of_In.
  - split; [done | intros H]. exfalso.
    assert (forallb (fun d => (process_directory d).2) directories = true) as Htrue;
      [| congruence].
    apply forallb_forall. intros d Hd. apply process_directory_counts.
    intros e. by apply H, list_elem_of_In.
Qed.

(** X22. Once postcss.config.js is loaded, the promise of
    [PostcssCompiler.init] is never rejected. It is fulfilled exactly when every stylesheet found in the two
    directories is empty or compiled and written; in every other case
    it stays pending for ever. *)
Theorem postcss_init_fulfils_iff_all_compiled :
  (init.2 = Async.Fulfilled \/ init.2 = Async.Pending) /\
  (init.2 = Async.Fulfilled <->
   forall d e, d ∈ directories -> e ∈ d.2 -> compiled e).
Proof.
  split; [| apply init_fulfilled_iff].
  rewrite init_settles. destruct (forallb _ directories); auto.
Qed.

(** X23. One stylesheet that is not empty and is not compiled and
    written stalls the [stylesheets] task of the legacy driver: the
    StyleOptimizer is never started and the task is never fulfilled,
    whatever the SassCompiler and the StyleOptimizer do. *)
Theorem stylesheets_stalls_on_a_failed_stylesheet
    (sass optimizer : Async.settle) (d : string * list string) (e : string)
    (Hd : d ∈ directories) (He : e ∈ d.2)
    (Hsize : PostcssCompiler.is_empty_file stat_size e = false)
    (Hfail : (processFile e).2 <> Async.Fulfilled) :
  (InitCalled "StyleOptimizer" ∉ (LegacyTasks.stylesheets sass init.2 optimizer).1) /\
  (LegacyTasks.stylesheets sass init.2 optimizer).2 <> Async.Fulfilled.
Proof.
  assert (init.2 = Async.Pending) as ->.
  { pose proof init_fulfilled_iff as Hiff. rewrite init_settles in *.
    destruct (forallb _ directories); [| done].
    exfalso. apply Hfail. by apply (proj1 Hiff eq_refl d e). }
  destruct sass; simpl; (split; [| done]);
    intros Hin; repeat (apply elem_of_cons in Hin as [Hin | Hin]; [discriminate |]);
    by apply elem_of_nil in Hin.
Qed.

End PostcssFacts.

Lemma stylesheets_stalls_on_a_failed_stylesheet_witness :
  (InitCalled "StyleOptimizer" ∉
    (LegacyTasks.stylesheets Async.Fulfilled
       (PostcssCompiler.init "src" sample_join css_sync css_size css_rejected
          css_destination).2 Async.Fulfilled).1) /\
  (LegacyTasks.stylesheets Async.Fulfilled
     (PostcssCompiler.init "src" sample_join css_sync css_size css_rejected
        css_destination).2 Async.Fulfilled).2 <> Async.Fulfilled.
Proof.
  apply (stylesheets_stalls_on_a_failed_stylesheet "src" sample_join css_sync css_size
           css_rejected css_destination Async.Fulfilled Async.Fulfilled
           ("main", ["src/main/stylesheets/a.css"; "src/main/stylesheets/b.css"])
           "src/main/stylesheets/a.css").
  - apply list_elem_of_here.
  - apply list_elem_of_here.
  - reflexivity.
  - discriminate.
Defined.

(** ** The builder extensions of the StyleguideCompiler *)

Lemma is_defined_spec (name : string -> string) (initial : list string) (commit : string) :
  StyleguideCompiler.is_defined name initial commit = true <->
  exists i, i ∈ initial /\ name i = name commit.
Proof.
  unfold StyleguideCompiler.is_defined. rewrite existsb_exists. split.
  - intros [n [Hin Heq]]. apply in_map_iff in Hin as [i [<- Hi]].
    apply String.eqb_eq in Heq. exists i. by rewrite list_elem_of_In.
  - intros [i [Hi Heq]]. exists (name i). split.
    + by apply in_map, list_elem_of_In.
    + by apply String.eqb_eq.
Qed.

Lemma first_with_name (name : string -> string) (initial : list string) (commit : string) :
  StyleguideCompiler.is_defined name initial commit = true ->
  exists i, i ∈ initial /\ name i = name commit /\
            head (List.filter (fun i => String.eqb (name commit) (name i)) initial) = Some i.
Proof.
  intros Hdef. apply is_defined_spec in Hdef as [j [Hj Heq]].
  induction initial as [| i initial IH]; [by apply elem_of_nil in Hj |].
  simpl. destruct (String.eqb (name commit) (name i)) eqn:Hi.
  - exists i. apply String.eqb_eq in Hi. split; [apply list_elem_of_here | done].
  - apply elem_of_cons in Hj as [-> | Hj].
    + rewrite Heq, String.eqb_refl in Hi. discriminate.
    + destruct (IH Hj) as [i' [Hin [Hname Hhead]]]. exists i'.
      split; [by apply list_elem_of_further | done].
Qed.

(** X24. [extendBuilder] never lets a custom extension replace a
    default one. The list it returns starts with the defaults and goes
    on with exactly the custom extensions that are not empty and whose
    name no default has. Every other custom extension gets two
    warnings, the second of which names a default extension with the
    same name, never undefined. *)
Theorem extendBuilder_never_replaces_a_default
    (name : string -> string) (initial proposal : list string) :
  (exists added,
     (StyleguideCompiler.extendBuilder name initial proposal).2 = initial ++ added /\
     forall c, c ∈ added <->
               c ∈ proposal /\ c <> "" /\ forall i, i ∈ initial -> name i <> name c) /\
  (forall c, c ∈ proposal -> (exists i, i ∈ initial /\ name i = name c) ->
     exists i, i ∈ initial /\ name i = name c /\
       StyleguideCompiler.already_exists name initial c =
         [Console Warning ("Custom builder function '" +:+ name c +:+ "' already exists.");
          Console Warning ("Using " +:+ i +:+ " instead of: " +:+ c)] /\
       forall e, e ∈ StyleguideCompiler.already_exists name initial c ->
                 e ∈ (StyleguideCompiler.extendBuilder name initial proposal).1).
Proof.
  split.
  - eexists. split; [reflexivity |]. intros c.
    rewrite list_elem_of_In, filter_In, <- list_elem_of_In, andb_true_iff, negb_true_iff.
    split.
    + intros [Hc [Hnew Hfull]]. split; [done |]. split.
      * intros ->. discriminate.
      * intros i Hi Heq.
        assert (StyleguideCompiler.is_defined name initial c = true) as Hdef
          by (apply is_defined_spec; eauto).
        congruence.
    + intros [Hc [Hfull Hnew]]. split; [done |]. split.
      * destruct (StyleguideCompiler.is_defined name initial c) eqn:Hdef; [| done].
        apply is_defined_spec in Hdef as [i [Hi Heq]]. by destruct (Hnew i Hi).
      * by destruct c.
  - intros c Hc Hdef. apply is_defined_spec in Hdef.
    destruct (first_with_name name initial c Hdef) as [i [Hi [Heq Hhead]]].
    exists i. split; [done |]. split; [done |]. split.
    + unfold StyleguideCompiler.already_exists. by rewrite Hhead.
    + intros e He. unfold StyleguideCompiler.extendBuilder. cbn [fst].
      apply list_elem_of_In, in_flat_map. exists c. split.
      * apply filter_In. split; [by apply list_elem_of_In | done].
      * by apply list_elem_of_In.
Qed.
